(** * release-notes-scribe: the extraction / bounding / chunking pipeline

    A shallow embedding of [src/lib.ts] (tag resolution, commit range,
    diff extraction, prompt rendering) and of the staging part of
    [src/index.ts] (trimText, truncateCommit, chunkCommits,
    generateResponseText), followed by the properties of the
    specification that are stated about them.

    Conventions of the model
    - a JavaScript string is a [string]: a sequence of code units, here
      restricted to the range 0..255; [s.length] is [Js.len s];
    - a JavaScript number that holds a count or a budget is a [Z];
    - [Set<string>] is a [gset string];
    - [logger.info] / [logger.warning] and the requests sent to the
      summarizer append to a log that every effectful function returns
      next to its value;
    - [throw new Error(m)] is the outcome [Threw m];
    - the git executable and the remote summarizer are oracles passed as
      arguments;
    - an array or a record is the list or the record of its contents;
      where a property is about what a function reads or writes besides
      its arguments, the function is embedded a second time, in
      [Store], on references into a heap. *)

From Stdlib Require Import ZArith Lia Ascii String List Bool DecimalString.
From stdpp Require Import base option list strings gmap.
From Equations Require Import Equations.

Local Open Scope Z_scope.

(** ** JavaScript string and array primitives used by the source *)

Module Js.

Definition len (s : string) : Z := Z.of_nat (String.length s).

(** Resolution of a relative index, as [String.prototype.slice] and
    [Array.prototype.slice] do: negative indices count from the end,
    and everything is clamped to [0 .. n]. *)
Definition relIndex (n i : Z) : Z :=
  if i <? 0 then Z.max (n + i) 0 else Z.min i n.

(** [s.slice(a, b)] *)
Definition slice (s : string) (a b : Z) : string :=
  let n := len s in
  let from := relIndex n a in
  let to := relIndex n b in
  String.substring (Z.to_nat from) (Z.to_nat (Z.max (to - from) 0)) s.

(** [s.slice(a)] *)
Definition sliceFrom (s : string) (a : Z) : string := slice s a (len s).

(** [xs.slice(a, b)] on arrays *)
Definition aslice {A} (xs : list A) (a b : Z) : list A :=
  let n := Z.of_nat (length xs) in
  let from := relIndex n a in
  let to := relIndex n b in
  take (Z.to_nat (Z.max (to - from) 0)) (drop (Z.to_nat from) xs).

(** [xs.slice(a)] on arrays *)
Definition asliceFrom {A} (xs : list A) (a : Z) : list A :=
  aslice xs a (Z.of_nat (length xs)).

(** [xs.join(sep)] on an array of strings *)
Definition join (sep : string) (xs : list string) : string :=
  String.concat sep xs.

(** [s.startsWith(p)] *)
Definition startsWith (s p : string) : bool := String.prefix p s.

(** Truthiness of a string: [Boolean(s)], [!s], [if (s)]. *)
Definition truthy (s : string) : bool :=
  match s with EmptyString => false | _ => true end.

(** [xs.pop()] seen as the array that is left. *)
Definition pop {A} (xs : list A) : list A := removelast xs.

(** [String(n)] and template interpolation of an integer. *)
Definition ofInt (n : Z) : string := NilZero.string_of_int (Z.to_int n).

(** White space and line terminators of ECMAScript, among the code
    units of the model: TAB, LF, VT, FF, CR, SP and NBSP. *)
Definition isSpace (c : ascii) : bool :=
  match c with
  | "009" | "010" | "011" | "012" | "013" | " " | "160" => true
  | _ => false
  end%char.

(** The line terminators that [.] of a regular expression refuses. *)
Definition isLineTerminator (c : ascii) : bool :=
  match c with
  | "010" | "013" => true
  | _ => false
  end%char.

Fixpoint trimStart (s : string) : string :=
  match s with
  | EmptyString => EmptyString
  | String c s' => if isSpace c then trimStart s' else s
  end.

Fixpoint trimEnd (s : string) : string :=
  match s with
  | EmptyString => EmptyString
  | String c s' =>
      match trimEnd s' with
      | EmptyString => if isSpace c then EmptyString else String c EmptyString
      | r => String c r
      end
  end.

Definition trim (s : string) : string := trimEnd (trimStart s).

(** [s.split(sep)] for a separator that is not empty. [skip] counts
    the code units of a separator just recognised that are still to
    be passed over; [cur] is the piece being read, reversed. *)
Fixpoint splitGo (sep : string) (skip : nat) (cur : string) (s : string)
  : list string :=
  match s with
  | EmptyString => [String.rev cur]
  | String c s' =>
      match skip with
      | S k => splitGo sep k cur s'
      | O =>
          if String.prefix sep s
          then String.rev cur :: splitGo sep (String.length sep - 1) EmptyString s'
          else splitGo sep O (String c cur) s'
      end
  end.

Definition split (s sep : string) : list string := splitGo sep O EmptyString s.

(** [s.includes(sub)] *)
Fixpoint includes (s sub : string) : bool :=
  String.prefix sub s ||
  match s with
  | EmptyString => false
  | String _ s' => includes s' sub
  end.

(** [s.lastIndexOf(c)] for a single code unit [c]; [-1] when absent. *)
Fixpoint lastIndexOf (s : string) (c : ascii) : Z :=
  match s with
  | EmptyString => -1
  | String d s' =>
      let r := lastIndexOf s' c in
      if 0 <=? r then r + 1
      else if Ascii.eqb d c then 0 else -1
  end.

(** [s.toLowerCase()] on the code units of the model: the Latin
    capital letters of U+0041..U+005A and of U+00C0..U+00DE (U+00D7,
    the multiplication sign, is not a letter). *)
Definition lowerChar (c : ascii) : ascii :=
  let n := N_of_ascii c in
  if ((65 <=? n) && (n <=? 90) || (192 <=? n) && (n <=? 222) && negb (n =? 215))%N
  then ascii_of_N (n + 32)
  else c.

Fixpoint mapChars (f : ascii → ascii) (s : string) : string :=
  match s with
  | EmptyString => EmptyString
  | String c s' => String (f c) (mapChars f s')
  end.

Definition toLowerCase (s : string) : string := mapChars lowerChar s.

(** [s.replace(/[...]/g, "")]: every code unit accepted by [p] is removed. *)
Fixpoint removeChars (p : ascii → bool) (s : string) : string :=
  match s with
  | EmptyString => EmptyString
  | String c s' => if p c then removeChars p s' else String c (removeChars p s')
  end.

(** [s.replace(/\r$/, "")]: one carriage return at the very end is removed. *)
Fixpoint stripFinalCR (s : string) : string :=
  match s with
  | EmptyString => EmptyString
  | String c EmptyString => if Ascii.eqb c "013" then EmptyString else s
  | String c s' => String c (stripFinalCR s')
  end.

(** [xs.length] as a condition. *)
Definition nonEmpty {A} (xs : list A) : bool :=
  match xs with [] => false | _ => true end.

End Js.

(** ** Logging and failure *)

(** What a run lets the outside see: the messages given to the logger
    and the requests submitted to the summarizer. *)
Inductive LogEntry : Type :=
| LogInfo (message : string)
| LogWarning (message : string)
| Submitted (model input instructions : string).

(** A computation that only logs. *)
Definition Logged (A : Type) : Type := (A * list LogEntry)%type.

Definition lret {A} (a : A) : Logged A := (a, []).

Definition lbind {A B} (m : Logged A) (k : A → Logged B) : Logged B :=
  let '(a, l1) := m in
  let '(b, l2) := k a in
  (b, l1 ++ l2).

Definition warn (message : string) : Logged unit := (tt, [LogWarning message]).
Definition inform (message : string) : Logged unit := (tt, [LogInfo message]).

Fixpoint lfold {S A} (step : S → A → Logged S) (xs : list A) (s : S) : Logged S :=
  match xs with
  | [] => lret s
  | x :: xs' => lbind (step s x) (lfold step xs')
  end.

(** A computation that may throw. *)
Inductive Outcome (A : Type) : Type :=
| Ok (value : A)
| Threw (error : string).
Arguments Ok {A} value.
Arguments Threw {A} error.

Definition obind {A B} (m : Outcome A) (k : A → Outcome B) : Outcome B :=
  match m with
  | Ok a => k a
  | Threw e => Threw e
  end.

(** A computation that logs and may throw; the log written before a
    throw is kept. *)
Definition Eff (A : Type) : Type := Logged (Outcome A).

Definition eret {A} (a : A) : Eff A := (Ok a, []).
Definition throw {A} (error : string) : Eff A := (Threw error, []).
Definition lift {A} (o : Outcome A) : Eff A := (o, []).
Definition logged {A} (m : Logged A) : Eff A := (Ok m.1, m.2).

Definition ebind {A B} (m : Eff A) (k : A → Eff B) : Eff B :=
  match m with
  | (Ok a, l1) => let '(r, l2) := k a in (r, l1 ++ l2)
  | (Threw e, l1) => (Threw e, l1)
  end.

(** [try { m } catch (error) { h(error.message) }] *)
Definition tryCatch {A} (m : Eff A) (h : string → Eff A) : Eff A :=
  match m with
  | (Ok a, l1) => (Ok a, l1)
  | (Threw e, l1) => let '(r, l2) := h e in (r, l1 ++ l2)
  end.

(** [xs.map(f)] for a callback that logs and may throw. *)
Fixpoint emap {A B} (f : A → Eff B) (xs : list A) : Eff (list B) :=
  match xs with
  | [] => eret []
  | x :: xs' => ebind (f x) (λ y, ebind (emap f xs') (λ ys, eret (y :: ys)))
  end.

(** ** The git executable (lib.ts) *)

(** What [execFileSync] throws: the fields [runGit] reads, each of which
    may be absent. *)
Record ExecError : Type := mkExecError {
  stderr : option string;
  stdout : option string;
  errMessage : option string;
}.

(** [execFileSync("git", args, { encoding: "utf8", maxBuffer })]: the
    standard output, or the error thrown. The repository does not change
    during a run, so the answer depends on the arguments only. *)
Definition Git : Type := list string → option Z → string + ExecError.

Record GitCommandOptions : Type := mkOptions {
  allowFailure : bool;
  trim : bool;
  maxBuffer : option Z;
}.

Definition defaults : GitCommandOptions :=
  {| allowFailure := false; trim := true; maxBuffer := None |}.

Definition optTruthy (o : option string) : bool :=
  match o with Some s => Js.truthy s | None => false end.

Definition runGit (git : Git) (args : list string) (options : GitCommandOptions)
  : Outcome string :=
  let passed :=
    match maxBuffer options with
    | Some n => if n =? 0 then None else Some n
    | None => None
    end in
  match git args passed with
  | inl output => Ok (if trim options then Js.trimEnd output else output)
  | inr err =>
      if allowFailure options then Ok ""
      else
        let details :=
          Js.join (String "010" "")
            (omap id (filter (λ o, optTruthy o = true)
                        [stderr err; stdout err; errMessage err])) in
        Threw ("git " +:+ Js.join " " args +:+ " failed: " +:+ details)
  end.

Definition isShallowRepository (git : Git) : bool :=
  match runGit git ["rev-parse"; "--is-shallow-repository"]
          {| allowFailure := true; trim := true; maxBuffer := None |} with
  | Ok output => bool_decide (Js.trim output = "true")
  | Threw _ => false
  end.

Definition listTags (git : Git) : list string :=
  match runGit git ["for-each-ref"; "--sort=-creatordate";
                    "--format=%(refname:short)"; "refs/tags"]
          {| allowFailure := true; trim := true; maxBuffer := None |} with
  | Ok output =>
      if Js.truthy output
      then filter (λ tag, Js.truthy tag = true)
             (map Js.trim (Js.split output (String "010" "")))
      else []
  | Threw _ => []
  end.

(** [tags.indexOf(t)], [None] standing for [-1]. *)
Fixpoint indexOf (tags : list string) (t : string) : option nat :=
  match tags with
  | [] => None
  | x :: rest =>
      if bool_decide (x = t) then Some O
      else option_map S (indexOf rest t)
  end.

Definition resolvePreviousTag (git : Git) (currentTag override : string) : Eff string :=
  if Js.truthy override then
    ebind (lift (runGit git ["rev-parse"; "-q"; "--verify"; "refs/tags/" +:+ override]
                   {| allowFailure := true; trim := true; maxBuffer := None |}))
      (λ overrideExists,
        if Js.truthy overrideExists then eret override
        else throw ("Override previous tag " +:+ override
                      +:+ " not found. Ensure tags are fetched."))
  else
    let tags := listTags git in
    if negb (Js.nonEmpty tags) then
      throw "No tags found locally. Ensure actions/checkout uses fetch-depth: 0."
    else
      match indexOf tags currentTag with
      | None =>
          throw ("Tag " +:+ currentTag
                   +:+ " not found in local tag list. Ensure tags are fetched.")
      | Some index =>
          (* [index + 1 >= tags.length] is [tags !! (index + 1) = None] *)
          match tags !! S index with
          | None =>
              ebind (logged (inform "No previous tag found; comparing against the empty tree."))
                (λ _, eret "")
          | Some previous => eret previous
          end
      end.

Definition getCommitShas (git : Git) (previousTag currentTag : string) (maxCommits : Z)
  : Eff (list string) :=
  let range :=
    if Js.truthy previousTag then previousTag +:+ ".." +:+ currentTag else currentTag in
  ebind (lift (runGit git ["log"; "--reverse"; "--pretty=format:%H"; range] defaults))
    (λ output,
      if negb (Js.truthy output) then eret []
      else
        let commits :=
          filter (λ sha, Js.truthy sha = true)
            (map Js.trim (Js.split output (String "010" ""))) in
        if maxCommits <? Z.of_nat (length commits) then
          ebind (logged (warn ("Found " +:+ Js.ofInt (Z.of_nat (length commits))
                                 +:+ " commits; truncating to the most recent "
                                 +:+ Js.ofInt maxCommits +:+ ".")))
            (λ _, eret (Js.asliceFrom commits (Z.of_nat (length commits) - maxCommits)))
        else eret commits).

(** ** Data model (lib.ts) *)

Record CommitData : Type := mkCommit {
  sha : string;
  message : string;
  diffLines : list string;
}.

(** [{ ...commit, message, diffLines }] *)
Definition withMessageAndDiff (c : CommitData) (m : string) (d : list string) : CommitData :=
  {| sha := sha c; message := m; diffLines := d |}.

(** ** Prompt rendering (lib.ts) *)

Definition NO_DIFF : string := "(No diff content available)".

Definition formatCommitBlock (commit : CommitData) : string :=
  let diffLines :=
    match diffLines commit with
    | [] => [NO_DIFF]
    | ls => ls
    end in
  let diffText := Js.join (String "010" "") (map (λ line, "- " +:+ line) diffLines) in
  Js.join (String "010" "")
    [ "Commit " +:+ Js.slice (sha commit) 0 7;
      "The following changes had this commit message:";
      message commit;
      "";
      "The changes in this commit were:";
      diffText ].

(** ** Change classification and diff extraction (lib.ts) *)

Definition MAX_LINE_LENGTH : Z := 300.

Definition DEFAULT_SOURCE_EXTENSIONS : gset string :=
  list_to_set
    [".ts"; ".tsx"; ".js"; ".jsx"; ".mjs"; ".cjs"; ".py"; ".go"; ".rs";
     ".java"; ".kt"; ".kts"; ".swift"; ".cs"; ".cpp"; ".c"; ".h"; ".hpp";
     ".m"; ".mm"; ".rb"; ".php"; ".scala"; ".lua"; ".sh"; ".ps1"; ".pl";
     ".r"; ".dart"; ".sql"; ".hs"; ".clj"; ".cljs"; ".erl"; ".ex"; ".exs"].

Record FileStat : Type := mkFileStat {
  path : string;
  isBinary : bool;
  isSource : bool;
}.

Definition formatFileStatus (status : string) : string :=
  if Js.startsWith status "R" then "renamed"
  else if Js.startsWith status "C" then "copied"
  else if bool_decide (status = "A") then "added"
  else if bool_decide (status = "M") then "modified"
  else if bool_decide (status = "D") then "deleted"
  else status.

(** The [for] loop of [fallbackFileChanges]; [results] is the array
    built so far. *)
Fixpoint fallbackLoop (maxLines : Z) (lines : list string) (results : list string)
  : list string :=
  match lines with
  | [] => results
  | line :: rest =>
      if negb (Js.truthy (Js.trim line)) then fallbackLoop maxLines rest results
      else
        match Js.split line (String "009" "") with
        | [] => fallbackLoop maxLines rest results
        | status :: pathParts =>
            let filePath := Js.join (String "009" "") pathParts in
            if negb (Js.truthy filePath) then fallbackLoop maxLines rest results
            else
              let results' := results ++ [filePath +:+ ": " +:+ formatFileStatus status] in
              if maxLines <=? Z.of_nat (length results') then results'
              else fallbackLoop maxLines rest results'
        end
  end.

Definition fallbackFileChanges (git : Git) (sha : string) (maxLines : Z)
  : Outcome (list string) :=
  obind (runGit git ["show"; "--name-status"; "--pretty=format:"; sha] defaults)
    (λ output,
      if negb (Js.truthy output) then Ok []
      else Ok (fallbackLoop maxLines (Js.split output (String "010" "")) [])).

Definition isBrace (c : ascii) : bool :=
  match c with
  | "{" | "}" => true
  | _ => false
  end%char.

Definition normalizePath (path : string) : string :=
  if negb (Js.includes path "=>") then path
  else
    let parts := Js.split path "=>" in
    let candidate :=
      match last parts with
      | Some part => Js.trim part
      | None => path
      end in
    Js.removeChars isBrace candidate.

Definition isSourcePath (path : string) (extensions : gset string) : bool :=
  let normalized := Js.toLowerCase (normalizePath path) in
  let dotIndex := Js.lastIndexOf normalized "." in
  if dotIndex =? -1 then false
  else bool_decide (Js.sliceFrom normalized dotIndex ∈ extensions).

(** The [for] loop of [getFileStats]. *)
Fixpoint fileStatsLoop (extensions : gset string) (lines : list string)
  (stats : list FileStat) : list FileStat :=
  match lines with
  | [] => stats
  | line :: rest =>
      if negb (Js.truthy (Js.trim line)) then fileStatsLoop extensions rest stats
      else
        let parts := Js.split line (String "009" "") in
        let additions := parts !! 0%nat in
        let deletions := parts !! 1%nat in
        let rawPath := Js.join (String "009" "") (drop 2 parts) in
        if negb (Js.truthy rawPath) then fileStatsLoop extensions rest stats
        else
          let path := normalizePath rawPath in
          let isBinary :=
            bool_decide (additions = Some "-") || bool_decide (deletions = Some "-") in
          let isSource := negb isBinary && isSourcePath path extensions in
          fileStatsLoop extensions rest
            (stats ++ [{| path := path; isBinary := isBinary; isSource := isSource |}])
  end.

Definition getFileStats (git : Git) (sha : string) (extensions : gset string)
  : Outcome (list FileStat) :=
  obind (runGit git ["show"; "--numstat"; "--pretty=format:"; sha] defaults)
    (λ output,
      if negb (Js.truthy output) then Ok []
      else Ok (fileStatsLoop extensions (Js.split output (String "010" "")) [])).

Definition summarizeNonSource (file : FileStat) : string :=
  if isBinary file then path file +:+ ": binary change (diff omitted)"
  else path file +:+ ": non-source change (diff omitted)".

Definition summarizeSource (path : string) : string :=
  path +:+ ": source change (diff omitted)".

(** [/^diff --git a\/(.+?) b\/(.+)$/] applied to a line, given what
    follows ["diff --git a/"]: the second group of the match. The first
    group is lazy, so the scan stops at the first [" b/"] that comes
    after at least one code unit and is followed by a remainder that is
    not empty; [.] accepts no line terminator. [started] tells whether
    the first group already holds a code unit. *)
Fixpoint headerTarget (started : bool) (s : string) : option string :=
  match s with
  | EmptyString => None
  | String c s' =>
      let rest := Js.sliceFrom s 3 in
      if started && Js.startsWith s " b/" && Js.truthy rest
         && negb (Js.truthy (Js.removeChars (λ d, negb (Js.isLineTerminator d)) rest))
      then Some rest
      else if Js.isLineTerminator c then None
      else headerTarget true s'
  end.

(** [match?.[2] ?? match?.[1] ?? ""] *)
Definition headerFile (line : string) : string :=
  if Js.startsWith line "diff --git a/"
  then default "" (headerTarget false (Js.sliceFrom line 13))
  else "".

(** The local variables of [extractDiffLines]. *)
Record Extract : Type := mkExtract {
  results : list string;
  currentFile : string;
  includeFile : bool;
}.

(** [currentFile ? `${currentFile}: ${text}` : text] *)
Definition entryFor (currentFile text : string) : string :=
  if Js.truthy currentFile then currentFile +:+ ": " +:+ text else text.

(** The truncation of one content line. *)
Definition trimmedLine (line : string) : string :=
  if MAX_LINE_LENGTH <? Js.len line
  then Js.slice line 0 (MAX_LINE_LENGTH - 3) +:+ "..."
  else line.

(** What one pass through the loop body does to the state. *)
Inductive Flow : Type :=
| Continue (st : Extract)   (* [continue], or the end of the body reached *)
| Break (st : Extract).     (* [break] *)

Definition extractStep (maxLines : Z) (allowedPaths : option (gset string))
  (st : Extract) (rawLine : string) : Flow :=
  let line := Js.stripFinalCR rawLine in
  if Js.startsWith line "diff --git " then
    let file := headerFile line in
    Continue {| results := results st;
                currentFile := file;
                includeFile :=
                  match allowedPaths with
                  | Some paths => bool_decide (file ∈ paths)
                  | None => true
                  end |}
  else if negb (includeFile st) then Continue st
  else if Js.startsWith line "+++ " || Js.startsWith line "--- "
          || Js.startsWith line "@@" || Js.startsWith line "\ No newline"
  then Continue st
  else
    let pushed : option (list string) :=
      if Js.startsWith line "Binary files "
      then Some (results st ++ [entryFor (currentFile st) line])
      else if Js.startsWith line "+" || Js.startsWith line "-" then
        if Js.startsWith line "+++" || Js.startsWith line "---" then None
        else Some (results st ++ [entryFor (currentFile st) (trimmedLine line)])
      else Some (results st) in
    match pushed with
    | None => Continue st
    | Some results' =>
        let st' := {| results := results';
                      currentFile := currentFile st;
                      includeFile := includeFile st |} in
        if maxLines <=? Z.of_nat (length results') then Break st' else Continue st'
    end.

Fixpoint extractLoop (maxLines : Z) (allowedPaths : option (gset string))
  (lines : list string) (st : Extract) : Extract :=
  match lines with
  | [] => st
  | rawLine :: rest =>
      match extractStep maxLines allowedPaths st rawLine with
      | Continue st' => extractLoop maxLines allowedPaths rest st'
      | Break st' => st'
      end
  end.

Definition extractDiffLines (git : Git) (diff : string) (maxLines : Z) (sha : string)
  (allowedPaths : option (gset string)) : Outcome (list string) :=
  let st :=
    extractLoop maxLines allowedPaths (Js.split diff (String "010" ""))
      {| results := []; currentFile := ""; includeFile := true |} in
  if negb (Js.nonEmpty (results st)) then fallbackFileChanges git sha maxLines
  else Ok (results st).

(** The body of the callback of [shas.map] in [buildCommitData]. *)
Definition DIFF_BUFFER : Z := 10 * 1024 * 1024.

Definition sourcePathsOf (fileStats : list FileStat) : list string :=
  map path (filter (λ file, isSource file = true) fileStats).

Definition nonSourceEntriesOf (fileStats : list FileStat) : list string :=
  map summarizeNonSource (filter (λ file, negb (isSource file) = true) fileStats).

(** The [try { ... } catch (error) { ... }] of the callback: the value
    of [diffLines] after it. *)
Definition readDiffLines (git : Git) (sha : string) (maxDiffLines : Z)
  (sourcePaths : list string) : Eff (list string) :=
  tryCatch
    (if Js.nonEmpty sourcePaths then
       lift (obind (runGit git ["show"; "--no-color"; "--unified=0"; "--pretty=format:"; sha]
                      {| allowFailure := false; trim := false;
                         maxBuffer := Some DIFF_BUFFER |})
               (λ diff,
                 extractDiffLines git diff maxDiffLines sha
                   (Some (list_to_set sourcePaths))))
     else eret [])
    (λ error,
      ebind (logged (warn ("Failed to read diff for " +:+ Js.slice sha 0 7 +:+ ": "
                             +:+ error +:+ ". Falling back to file summary.")))
        (λ _,
          eret (if Js.nonEmpty sourcePaths
                then map summarizeSource (Js.aslice sourcePaths 0 maxDiffLines)
                else []))).

Definition buildCommit (git : Git) (maxDiffLines : Z) (sourceExtensions : gset string)
  (sha : string) : Eff CommitData :=
  ebind (lift (runGit git ["log"; "-1"; "--pretty=format:%s%n%n%b"; sha] defaults))
    (λ logOutput,
      let message := Js.trim logOutput in
      ebind (lift (getFileStats git sha sourceExtensions))
        (λ fileStats,
          let sourcePaths := sourcePathsOf fileStats in
          let nonSourceEntries := nonSourceEntriesOf fileStats in
          ebind (readDiffLines git sha maxDiffLines sourcePaths)
            (λ diffLines,
              eret {| sha := sha;
                      message := if Js.truthy message then message
                                 else "(no commit message)";
                      diffLines :=
                        Js.aslice (diffLines ++ nonSourceEntries) 0 maxDiffLines |}))).

Definition buildCommitData (git : Git) (shas : list string) (maxDiffLines : Z)
  (sourceExtensions : gset string) : Eff (list CommitData) :=
  emap (buildCommit git maxDiffLines sourceExtensions) shas.

(** ** Prompt rendering, continued (lib.ts) *)

Definition NOTES_HEADING : string :=
  String "010" (String "010"
    ("GitHub auto-generated notes (extra context, do not quote verbatim):"
       +:+ String "010" "")).

Definition buildPrompt (currentTag previousTag : string) (commits : list CommitData)
  (githubNotes : string) : string :=
  let header :=
    Js.join (String "010" "")
      [ "Release tag: " +:+ currentTag;
        if Js.truthy previousTag then "Previous tag: " +:+ previousTag
        else "Previous tag: (none)";
        "Commit count: " +:+ Js.ofInt (Z.of_nat (length commits));
        "" ] in
  let commitBlocks :=
    if Js.nonEmpty commits then map formatCommitBlock commits
    else [ "No commits were found between the previous and current tag.";
           "Write a short placeholder release note that explains there are no code changes." ] in
  let prompt := header +:+ Js.join (String "010" (String "010" "")) commitBlocks in
  if Js.truthy githubNotes then prompt +:+ NOTES_HEADING +:+ githubNotes
  else prompt.

(** ** Prompt rendering on the objects of the caller (lib.ts) *)

(** [formatCommitBlock] and [buildPrompt] above take the contents of
    their arguments. What a caller passes is a reference to an array of
    records, each of which refers to an array of lines; whoever holds
    such a reference may read and write the object behind it. [Store]
    embeds the same two functions on references, statement by
    statement, in a world that holds the objects together with what a
    rendering could draw on besides its arguments: the clock and the
    random source. The tags and the notes are strings, which JavaScript
    passes by value. *)
Module Store.

Definition Ref : Type := positive.

(** The objects [buildPrompt] reaches from [commits], by their
    TypeScript types: [string[]], [CommitData] and [CommitData[]]. *)
Inductive Object : Type :=
| Lines (items : list string)
| Commit (sha message : string) (diffLines : Ref)
| Commits (items : list Ref).

Record World : Type := mkWorld {
  heap : gmap Ref Object;
  clock : Z;
  entropy : Z;
}.

(** A computation in the world: it may read it, change it, and throw. *)
Definition M (A : Type) : Type := World → Outcome A * World.

Definition ret {A} (a : A) : M A := λ w, (Ok a, w).

Definition bind {A B} (m : M A) (k : A → M B) : M B := λ w,
  match m w with
  | (Ok a, w') => k a w'
  | (Threw e, w') => (Threw e, w')
  end.

(** A read through a reference that does not hold an object of the type
    the signature gives it. *)
Definition typeError {A} : M A := λ w, (Threw "TypeError", w).

Definition asLines (o : Object) : option (list string) :=
  match o with Lines items => Some items | _ => None end.

Definition asCommits (o : Object) : option (list Ref) :=
  match o with Commits items => Some items | _ => None end.

(** The elements of the array behind [array] at the time of the read. *)
Definition itemsOf {A} (kind : Object → option (list A)) (array : Ref) : M (list A) :=
  λ w,
    match heap w !! array ≫= kind with
    | Some items => (Ok items, w)
    | None => typeError w
    end.

(** [array.length] *)
Definition lengthOf {A} (kind : Object → option (list A)) (array : Ref) : M Z :=
  bind (itemsOf kind array) (λ items, ret (Z.of_nat (length items))).

(** [commit.sha], [commit.message] and [commit.diffLines] *)
Definition field {A} (get : string → string → Ref → A) (commit : Ref) : M A :=
  λ w,
    match heap w !! commit with
    | Some (Commit sha message diffLines) => (Ok (get sha message diffLines), w)
    | _ => typeError w
    end.

Definition shaOf : Ref → M string := field (λ sha _ _, sha).
Definition messageOf : Ref → M string := field (λ _ message _, message).
Definition diffLinesOf : Ref → M Ref := field (λ _ _ diffLines, diffLines).

(** The iterations of [array.map(callback)] from [index] on, [count] of
    them: each element is read when its turn comes, in the world the
    earlier callbacks left. An index the array no longer has leaves a
    hole in the result, which the [join] that follows both uses of [map]
    renders as the empty string. *)
Fixpoint mapFrom {A} (kind : Object → option (list A)) (array : Ref)
  (callback : A → M string) (index count : nat) : M (list string) :=
  match count with
  | O => ret []
  | S count' =>
      bind (itemsOf kind array) (λ items,
        bind (match items !! index with
              | Some item => callback item
              | None => ret ""
              end)
          (λ text,
            bind (mapFrom kind array callback (S index) count') (λ texts,
              ret (text :: texts))))
  end.

(** [array.map(callback)]: the length is read once, before the first
    callback. *)
Definition mapItems {A} (kind : Object → option (list A)) (array : Ref)
  (callback : A → M string) : M (list string) :=
  bind (itemsOf kind array) (λ items,
    mapFrom kind array callback 0 (length items)).

Definition formatCommitBlock (commit : Ref) : M string :=
  bind (diffLinesOf commit) (λ lines,
    bind (lengthOf asLines lines) (λ count,
      bind (if count =? 0
            then ret (map (λ line, "- " +:+ line) [NO_DIFF])
            else bind (diffLinesOf commit) (λ diffLines,
                   mapItems asLines diffLines (λ line, ret ("- " +:+ line))))
        (λ dashed,
          let diffText := Js.join (String "010" "") dashed in
          bind (shaOf commit) (λ sha,
            bind (messageOf commit) (λ message,
              ret (Js.join (String "010" "")
                     [ "Commit " +:+ Js.slice sha 0 7;
                       "The following changes had this commit message:";
                       message;
                       "";
                       "The changes in this commit were:";
                       diffText ])))))).

Definition buildPrompt (currentTag previousTag : string) (commits : Ref)
  (githubNotes : string) : M string :=
  bind (lengthOf asCommits commits) (λ count,
    let header :=
      Js.join (String "010" "")
        [ "Release tag: " +:+ currentTag;
          if Js.truthy previousTag then "Previous tag: " +:+ previousTag
          else "Previous tag: (none)";
          "Commit count: " +:+ Js.ofInt count;
          "" ] in
    bind (lengthOf asCommits commits) (λ count',
      bind (if count' =? 0
            then ret [ "No commits were found between the previous and current tag.";
                       "Write a short placeholder release note that explains there are no code changes." ]
            else mapItems asCommits commits formatCommitBlock)
        (λ commitBlocks,
          let prompt := header +:+ Js.join (String "010" (String "010" "")) commitBlocks in
          ret (if Js.truthy githubNotes then prompt +:+ NOTES_HEADING +:+ githubNotes
               else prompt)))).

End Store.

(** ** The summarizer (lib.ts, index.ts) *)

(** An element of [response.output]: its [type], and its [text] when
    that is a string. *)
Record OutputItem : Type := mkItem {
  itemType : option string;
  itemText : option string;
}.

(** A response of the summarizer, with the two shapes the extraction
    reads: a flat [output_text], a list [output] of typed items. Either
    may be absent. *)
Record Response : Type := mkResponse {
  output_text : option string;
  output : option (list OutputItem);
}.

Definition extractResponseText (response : Response) : string :=
  if optTruthy (output_text response) then default "" (output_text response)
  else
    match output response with
    | Some items =>
        let textItems :=
          omap itemText
            (filter (λ item, itemType item = Some "output_text") items) in
        if Js.nonEmpty textItems then Js.join (String "010" "") textItems else ""
    | None => ""
    end.

(** [client.responses.create({ model, input, instructions })]: a
    response, or the message of the error it rejects with. *)
Definition Client : Type := string → string → string → Response + string.

(** ** Staging planner (index.ts) *)

Definition trimText (text : string) (maxLength : Z) : string :=
  if Js.len text <=? maxLength then text
  else if maxLength <=? 3 then Js.slice text 0 maxLength
  else Js.slice text 0 (maxLength - 3) +:+ "...".

(** The local variables of [truncateCommit]. *)
Record Trunc : Type := mkTrunc {
  t_message : string;
  t_diffLines : list string;
  t_changed : bool;
  t_block : string;
}.

Definition reblock (commit : CommitData) (message : string) (diffLines : list string) : string :=
  formatCommitBlock (withMessageAndDiff commit message diffLines).

(** [while (block.length > maxChars && diffLines.length) { diffLines.pop(); ... }] *)
Equations? dropLoop (commit : CommitData) (maxChars : Z) (st : Trunc) : Trunc
  by wf (length (t_diffLines st)) lt :=
dropLoop commit maxChars st
  with decide (maxChars < Js.len (t_block st) ∧ t_diffLines st ≠ []) := {
  | left _ =>
      dropLoop commit maxChars
        {| t_message := t_message st;
           t_diffLines := Js.pop (t_diffLines st);
           t_changed := true;
           t_block := reblock commit (t_message st) (Js.pop (t_diffLines st)) |};
  | right _ => st }.
Proof.
  match goal with H : t_diffLines _ ≠ [] |- _ => revert H end.
  unfold Js.pop.
  destruct (t_diffLines st) as [|x xs _] using rev_ind; [done|intros _].
  rewrite removelast_last, length_app. simpl. lia.
Qed.

Definition truncateCommit (commit : CommitData) (maxChars : Z) : Logged CommitData :=
  let maxMessageLength := Z.max 200 (maxChars / 4) in
  let st0 :=
    if maxMessageLength <? Js.len (message commit)
    then {| t_message := trimText (message commit) maxMessageLength;
            t_diffLines := diffLines commit; t_changed := true; t_block := "" |}
    else {| t_message := message commit;
            t_diffLines := diffLines commit; t_changed := false; t_block := "" |} in
  let st1 :=
    {| t_message := t_message st0; t_diffLines := t_diffLines st0;
       t_changed := t_changed st0;
       t_block := reblock commit (t_message st0) (t_diffLines st0) |} in
  let st2 := dropLoop commit maxChars st1 in
  let st3 :=
    if (maxChars <? Js.len (t_block st2)) && bool_decide (t_diffLines st2 ≠ [])
    then {| t_message := t_message st2; t_diffLines := [];
            t_changed := true; t_block := t_block st2 |}
    else st2 in
  let st4 :=
    if maxChars <? Js.len (t_block st3)
    then {| t_message := trimText (t_message st3) (Z.max 50 (maxChars - 200));
            t_diffLines := []; t_changed := true; t_block := t_block st3 |}
    else st3 in
  (withMessageAndDiff commit (t_message st4) (t_diffLines st4),
   if t_changed st4
   then [LogWarning ("Commit " +:+ Js.slice (sha commit) 0 7
                       +:+ " truncated to fit prompt budget.")]
   else []).

(** The local variables of [chunkCommits]. *)
Record Packing : Type := mkPacking {
  chunks : list (list CommitData);
  current : list CommitData;
  currentSize : Z;
}.

(** The [candidate] of one iteration of [chunkCommits]. *)
Definition candidateOf (maxChars : Z) (commit : CommitData) : Logged CommitData :=
  if maxChars <? Js.len (formatCommitBlock commit)
  then truncateCommit commit maxChars
  else lret commit.

(** One iteration of [for (const commit of commits)]. *)
Definition chunkStep (maxChars : Z) (st : Packing) (commit : CommitData) : Logged Packing :=
  lbind (candidateOf maxChars commit)
    (λ candidate,
      let block := formatCommitBlock candidate in
      let st' :=
        if bool_decide (current st ≠ [])
           && (maxChars <? currentSize st + Js.len block + 2)
        then {| chunks := chunks st ++ [current st]; current := []; currentSize := 0 |}
        else st in
      lret {| chunks := chunks st';
              current := current st' ++ [candidate];
              currentSize := currentSize st' + Js.len block + 2 |}).

Definition chunkCommits (commits : list CommitData) (maxChars : Z)
  : Logged (list (list CommitData)) :=
  lbind (lfold (chunkStep maxChars) commits
           {| chunks := []; current := []; currentSize := 0 |})
    (λ st,
      lret (if bool_decide (current st ≠ [])
            then chunks st ++ [current st]
            else chunks st)).

Definition buildSummaryPrompt (currentTag previousTag : string)
  (commits : list CommitData) : string :=
  buildPrompt currentTag previousTag commits "".

Definition buildFinalPrompt (currentTag previousTag : string) (summaries : list string)
  (githubNotes : string) : string :=
  let header :=
    Js.join (String "010" "")
      [ "Release tag: " +:+ currentTag;
        if Js.truthy previousTag then "Previous tag: " +:+ previousTag
        else "Previous tag: (none)";
        "Summary batch count: " +:+ Js.ofInt (Z.of_nat (length summaries));
        "" ] in
  let blocks :=
    imap (λ index summary,
            "Batch " +:+ Js.ofInt (Z.of_nat index + 1) +:+ " summary:"
              +:+ String "010" "" +:+ summary)
      summaries in
  let prompt := header +:+ Js.join (String "010" (String "010" "")) blocks in
  if Js.truthy githubNotes then prompt +:+ NOTES_HEADING +:+ githubNotes
  else prompt.

Definition generateResponseText (client : Client) (model input instructions label : string)
  : Eff string :=
  ebind (logged (tt, [Submitted model input instructions]))
    (λ _,
      match client model input instructions with
      | inr error => throw error
      | inl response =>
          let text := Js.trim (extractResponseText response) in
          if negb (Js.truthy text)
          then throw ("Model response did not include text output (" +:+ label +:+ ").")
          else eret text
      end).

Definition finalInstructions : string :=
  "Write concise release notes in Markdown for end users. "
  +:+ "Use a '## What's Changed' heading and bullet points. "
  +:+ "Prefer user-facing changes over internal refactors. "
  +:+ "Do not include code fences.".

Definition stageInstructions : string :=
  "Summarize the following commits into a concise Markdown bullet list. "
  +:+ "Focus on user-facing changes; mention notable internal changes briefly. "
  +:+ "Do not include code fences.".

(** [for (let index = 0; index < chunks.length; index += 1)] of [run];
    [summaries] is the array built so far. *)
Fixpoint stageLoop (client : Client) (model tag previousTag : string)
  (index : Z) (rest : list (list CommitData)) (summaries : list string)
  : Eff (list string) :=
  match rest with
  | [] => eret summaries
  | chunk :: rest' =>
      ebind (generateResponseText client model
               (buildSummaryPrompt tag previousTag chunk)
               stageInstructions
               ("stage-" +:+ Js.ofInt (index + 1)))
        (λ summary,
          stageLoop client model tag previousTag (index + 1) rest'
            (summaries ++ [summary]))
  end.

(** The part of [run] that turns the commit records into the text of the
    release notes: one submission when the full prompt fits the stage
    budget, staged summarization otherwise. *)
Definition runSummarization (client : Client) (model tag previousTag : string)
  (commits : list CommitData) (githubNotes : string) (maxStageChars : Z) : Eff string :=
  let fullPrompt := buildPrompt tag previousTag commits githubNotes in
  if Js.len fullPrompt <=? maxStageChars then
    generateResponseText client model fullPrompt finalInstructions "final"
  else
    let chunkBudget := Z.max 1000 (maxStageChars - 2000) in
    ebind (logged (chunkCommits commits chunkBudget))
      (λ chunks,
        ebind (logged (inform ("Full prompt size " +:+ Js.ofInt (Js.len fullPrompt)
                                 +:+ " exceeds " +:+ Js.ofInt maxStageChars +:+ ". "
                                 +:+ "Summarizing in "
                                 +:+ Js.ofInt (Z.of_nat (length chunks))
                                 +:+ " batches.")))
          (λ _,
            ebind (stageLoop client model tag previousTag 0 chunks [])
              (λ summaries,
                generateResponseText client model
                  (buildFinalPrompt tag previousTag summaries githubNotes)
                  finalInstructions "final"))).

(** ** Inputs of the action (lib.ts, index.ts) *)

(** [getTagFromRef(ref)], [None] standing for [undefined] as an argument
    and for [null] as a result. *)
Definition getTagFromRef (ref : option string) : option string :=
  match ref with
  | None => None
  | Some r =>
      if negb (Js.truthy r) then None
      else if Js.startsWith r "refs/tags/"
           then Some (Js.sliceFrom r (Js.len "refs/tags/"))
           else None
  end.

(** [s.split(/[...]+/)] for a class of code units [isSep]: the pieces
    between the maximal runs of separators. [inSep] tells whether the
    code unit just read was a separator; [cur] is the piece being read,
    reversed. *)
Fixpoint splitRunsGo (isSep : ascii → bool) (inSep : bool) (cur : string) (s : string)
  : list string :=
  match s with
  | EmptyString => [String.rev cur]
  | String c s' =>
      if isSep c then
        if inSep then splitRunsGo isSep true EmptyString s'
        else String.rev cur :: splitRunsGo isSep true EmptyString s'
      else splitRunsGo isSep false (String c cur) s'
  end.

Definition splitRuns (isSep : ascii → bool) (s : string) : list string :=
  splitRunsGo isSep false EmptyString s.

(** The class [[\s,]] of [parseSourceExtensions]. *)
Definition isSpaceOrComma (c : ascii) : bool :=
  Js.isSpace c || Ascii.eqb c ","%char.

(** [value.startsWith(".") ? value.toLowerCase() : `.${value.toLowerCase()}`] *)
Definition dotted (value : string) : string :=
  if Js.startsWith value "." then Js.toLowerCase value
  else "." +:+ Js.toLowerCase value.

Definition parseSourceExtensions (input : string) : gset string :=
  if negb (Js.truthy (Js.trim input)) then DEFAULT_SOURCE_EXTENSIONS
  else
    let values :=
      map dotted
        (filter (λ value, Js.truthy value = true)
           (map Js.trim (splitRuns isSpaceOrComma input))) in
    list_to_set values.


(** * Vocabulary of the properties *)

(** Line feed and tabulation, the separators of the output of git. *)
Definition LF : string := String "010" "".

Definition TAB : string := String "009" "".

(** ** Lengths of strings *)

(** The separators of [join] add up: the sum of the lengths of the
    pieces, each followed by a separator, less the last separator. *)
Fixpoint paddedLen (sep : Z) (xs : list string) : Z :=
  match xs with
  | [] => 0
  | x :: rest => Js.len x + sep + paddedLen sep rest
  end.

(** ** The reduction of one oversized record *)

(** The message after the first truncation of [truncateCommit]. *)
Definition quarterMessage (commit : CommitData) (maxChars : Z) : string :=
  trimText (message commit) (Z.max 200 (maxChars / 4)).

(** The record [truncateCommit] ends with when nothing else fits: no
    diff line, and the message cut a second time. *)
Definition floorRecord (commit : CommitData) (maxChars : Z) : CommitData :=
  withMessageAndDiff commit
    (trimText (quarterMessage commit maxChars) (Z.max 50 (maxChars - 200))) [].

(** The number of iterations of the [while] loop of [truncateCommit]. *)
Equations? dropIterations (commit : CommitData) (maxChars : Z) (st : Trunc) : nat
  by wf (length (t_diffLines st)) lt :=
dropIterations commit maxChars st
  with decide (maxChars < Js.len (t_block st) ∧ t_diffLines st ≠ []) := {
  | left _ =>
      S (dropIterations commit maxChars
           {| t_message := t_message st;
              t_diffLines := Js.pop (t_diffLines st);
              t_changed := true;
              t_block := reblock commit (t_message st) (Js.pop (t_diffLines st)) |});
  | right _ => O }.
Proof.
  match goal with H : t_diffLines _ ≠ [] |- _ => revert H end.
  unfold Js.pop.
  destruct (t_diffLines st) as [|x xs _] using rev_ind; [done|intros _].
  rewrite removelast_last, length_app. simpl. lia.
Qed.

(** The state the loop is entered with, for a given message and array. *)
Definition loopEntry (commit : CommitData) (msg : string) (lines : list string)
  (changed : bool) : Trunc :=
  {| t_message := msg; t_diffLines := lines; t_changed := changed;
     t_block := reblock commit msg lines |}.

(** The notice [truncateCommit] gives to the logger. *)
Definition truncationNotice (commit : CommitData) : LogEntry :=
  LogWarning ("Commit " +:+ Js.slice (sha commit) 0 7
                +:+ " truncated to fit prompt budget.").

(** ** The packing of records into chunks *)

(** The serialized size of a chunk: its blocks joined the way
    [buildPrompt] joins them. *)
Definition chunkChars (chunk : list CommitData) : Z :=
  Js.len (Js.join (String "010" (String "010" "")) (map formatCommitBlock chunk)).

(** The size [chunkCommits] accounts for a chunk: each block and the
    two code units of a separator. *)
Definition packedSize (chunk : list CommitData) : Z :=
  paddedLen 2 (map formatCommitBlock chunk).

(** The records held by a packing state, in order. *)
Definition flat (st : Packing) : list CommitData :=
  concat (chunks st) ++ current st.

(** A chunk is within budget, or holds a single record. *)
Definition fitsOrSingle (maxChars : Z) (chunk : list CommitData) : Prop :=
  chunkChars chunk <= maxChars ∨ ∃ c, chunk = [c].

Record PackInv (maxChars : Z) (st : Packing) : Prop := mkPackInv {
  inv_size : currentSize st = packedSize (current st);
  inv_chunks : Forall (λ chunk, chunk ≠ [] ∧ fitsOrSingle maxChars chunk) (chunks st);
  inv_current :
    current st = [] ∨ (∃ c, current st = [c]) ∨ packedSize (current st) <= maxChars;
}.

(** What [chunkCommits] may do to a record: keep its sha, keep a prefix
    of its diff lines, keep or shorten its message. *)
Definition reducedFrom (c c' : CommitData) : Prop :=
  sha c' = sha c
  ∧ diffLines c' `prefix_of` diffLines c
  ∧ Js.len (message c') <= Js.len (message c).

(** ** The progressive reduction, step by step *)

(** Whether the message is cut to the quarter of the budget. *)
Definition messageCut (c : CommitData) (maxChars : Z) : bool :=
  bool_decide (Z.max 200 (maxChars / 4) < Js.len (message c)).

(** The number of diff lines the loop removes, one per iteration. *)
Definition droppedLines (c : CommitData) (maxChars : Z) : nat :=
  dropIterations c maxChars
    (loopEntry c (quarterMessage c maxChars) (diffLines c) (messageCut c maxChars)).

(** The diff lines the loop leaves. *)
Definition keptLines (c : CommitData) (maxChars : Z) : list string :=
  take (length (diffLines c) - droppedLines c maxChars) (diffLines c).

(** Whether the block is still over budget after the loop. *)
Definition floorReached (c : CommitData) (maxChars : Z) : bool :=
  bool_decide
    (maxChars < Js.len (reblock c (quarterMessage c maxChars) (keptLines c maxChars))).

(** The reduction steps [truncateCommit] performs on a record. *)
Definition reductionSteps (c : CommitData) (maxChars : Z) : nat :=
  ((if messageCut c maxChars then 1 else 0)
   + droppedLines c maxChars
   + (if floorReached c maxChars then 1 else 0))%nat.

(** C4 reads: every reduction step emits a notice. *)
Definition noticePerStep (c : CommitData) (maxChars : Z) : Prop :=
  length (truncateCommit c maxChars).2 = reductionSteps c maxChars.

(** ** The previous tag *)

Definition NO_TAGS : string :=
  "No tags found locally. Ensure actions/checkout uses fetch-depth: 0.".

Definition tagNotFound (tag : string) : string :=
  "Tag " +:+ tag +:+ " not found in local tag list. Ensure tags are fetched.".

Definition NO_PREVIOUS : LogEntry :=
  LogInfo "No previous tag found; comparing against the empty tree.".

(** ** The commit range *)

(** The commit list [getCommitShas] reads from the output of [git log]. *)
Definition commitsOf (output : string) : list string :=
  filter (λ sha, Js.truthy sha = true) (map Js.trim (Js.split output LF)).

Definition rangeOf (previousTag currentTag : string) : string :=
  if Js.truthy previousTag then previousTag +:+ ".." +:+ currentTag else currentTag.

Definition countNotice (found kept : Z) : LogEntry :=
  LogWarning ("Found " +:+ Js.ofInt found
                +:+ " commits; truncating to the most recent "
                +:+ Js.ofInt kept +:+ ".").

(** ** Degradation of the diff of a commit *)

Definition diffArgs (sha : string) : list string :=
  ["show"; "--no-color"; "--unified=0"; "--pretty=format:"; sha].

Definition diffOptions : GitCommandOptions :=
  {| allowFailure := false; trim := false; maxBuffer := Some DIFF_BUFFER |}.

(** The message of the error [runGit] throws. *)
Definition gitError (args : list string) (err : ExecError) : string :=
  "git " +:+ Js.join " " args +:+ " failed: "
    +:+ Js.join LF
          (omap id (filter (λ o, optTruthy o = true)
                      [stderr err; stdout err; errMessage err])).

(** The warning [buildCommitData] logs when it falls back. *)
Definition diffWarning (sha error : string) : LogEntry :=
  LogWarning ("Failed to read diff for " +:+ Js.slice sha 0 7 +:+ ": "
                +:+ error +:+ ". Falling back to file summary.").

(** The lines the loop of [extractDiffLines] collects from a diff. *)
Definition collected (diff : string) (maxLines : Z) (allowedPaths : option (gset string))
  : list string :=
  results (extractLoop maxLines allowedPaths (Js.split diff LF)
             {| results := []; currentFile := ""; includeFile := true |}).

(** The record made of one commit, given what was read. *)
Definition recordOf (sha logOutput : string) (fileStats : list FileStat)
  (maxDiffLines : Z) (content : list string) : CommitData :=
  {| sha := sha;
     message := if Js.truthy (Js.trim logOutput) then Js.trim logOutput
                else "(no commit message)";
     diffLines := Js.aslice (content ++ nonSourceEntriesOf fileStats) 0 maxDiffLines |}.

(** A line of the name-status listing: a path, a colon, the status. *)
Definition statusLine (line : string) : Prop :=
  ∃ filePath status, Js.truthy filePath = true
                     ∧ line = filePath +:+ ": " +:+ formatFileStatus status.

(** [s.endsWith(suffix)], to read the form of a line. *)
Definition endsWith (s suffix : string) : bool :=
  String.prefix (String.rev suffix) (String.rev s).

(** C5 reads: the substitute lines have the form
    [path: added|modified|deleted|renamed|copied]. *)
Definition nameStatusLine (line : string) : bool :=
  existsb (λ word, endsWith line (": " +:+ word))
    ["added"; "modified"; "deleted"; "renamed"; "copied"].

(** ** The truncation of diff lines *)

(** A line of a diff that [extractDiffLines] keeps as content: it starts
    with [+] or [-], and not with [+++] or [---]. *)
Definition contentLine (line : string) : bool :=
  (Js.startsWith line "+" || Js.startsWith line "-")
  && negb (Js.startsWith line "+++" || Js.startsWith line "---").

(** The entries [extractDiffLines] collects from the lines of a diff:
    a [Binary files] line as it is, a content line truncated, each after
    the path of its file when one is known. *)
Inductive storedEntry (lines : list string) (entry : string) : Prop :=
| storedBinary (file line : string) :
    line ∈ lines → Js.startsWith line "Binary files " = true →
    entry = entryFor file line → storedEntry lines entry
| storedContent (file line : string) :
    line ∈ lines → contentLine line = true →
    entry = entryFor file (trimmedLine line) → storedEntry lines entry.

(** The state after a line has been pushed. *)
Definition pushed (st : Extract) (entry : string) : Extract :=
  {| results := results st ++ [entry];
     currentFile := currentFile st;
     includeFile := includeFile st |}.

(** ** An empty answer of the summarizer *)

Definition emptyResponseError (label : string) : string :=
  "Model response did not include text output (" +:+ label +:+ ").".

(** The text extracted from the answer to a request, trimmed. *)
Definition answer (client : Client) (model input instructions : string) : Outcome string :=
  match client model input instructions with
  | inl response => Ok (Js.trim (extractResponseText response))
  | inr error => Threw error
  end.

(** The request of a batch stage. *)
Definition stageRequest (model tag previousTag : string) (chunk : list CommitData)
  : LogEntry :=
  Submitted model (buildSummaryPrompt tag previousTag chunk) stageInstructions.

Definition stageAnswer (client : Client) (model tag previousTag : string)
  (chunk : list CommitData) : Outcome string :=
  answer client model (buildSummaryPrompt tag previousTag chunk) stageInstructions.

(** ** Sample inputs *)

(** A repository to run the model on: two tags, three commits in the
    range, and a commit that touches a source file, a binary file, a
    renamed source file and a text file. *)

Definition sampleDiff : string :=
  Js.join LF
    [ "diff --git a/src/a.ts b/src/a.ts"; "index 1..2";
      "--- a/src/a.ts"; "+++ b/src/a.ts"; "@@ -1 +1 @@";
      "-old"; "+new";
      "diff --git a/README.md b/README.md"; "+readme" ].

Definition sampleNumstat : string :=
  Js.join LF
    [ Js.join TAB ["1"; "2"; "src/a.ts"];
      Js.join TAB ["-"; "-"; "img.png"];
      Js.join TAB ["3"; "0"; "src/{old => new}/b.TS"];
      Js.join TAB ["3"; "0"; "README.md"] ].

Definition sampleFailure : ExecError :=
  {| stderr := Some "fatal: bad object"; stdout := None;
     errMessage := Some "Command failed" |}.

Definition sampleGit : Git := λ args _,
  match args with
  | ["for-each-ref"; _; _; _] => inl ("v1.1.0" +:+ LF +:+ "v1.0.0" +:+ LF)
  | ["log"; "--reverse"; _; _] => inl (Js.join LF ["aaa"; "bbb"; "ccc"])
  | ["log"; "-1"; _; _] => inl ("feat: x" +:+ LF +:+ LF)
  | ["show"; "--numstat"; _; _] => inl sampleNumstat
  | ["show"; "--no-color"; _; _; _] => inl sampleDiff
  | ["show"; "--name-status"; _; _] =>
      inl (Js.join LF [Js.join TAB ["M"; "src/a.ts"]; Js.join TAB ["R100"; "x"; "y"]])
  | _ => inr sampleFailure
  end.

(** The same repository, with a [git show] of the diff that fails. *)
Definition brokenDiffGit : Git := λ args buffer,
  match args with
  | ["show"; "--no-color"; _; _; _] => inr sampleFailure
  | _ => sampleGit args buffer
  end.

(** A record of 129 code units once rendered, with two diff lines. *)
Definition smallCommit : CommitData :=
  {| sha := "0123456789"; message := "hello world";
     diffLines := ["a.ts: +x"; "a.ts: -y"] |}.

(** A record of 505 code units once rendered: a message of 250 code
    units and three diff lines of 50. *)
Definition wideCommit : CommitData :=
  {| sha := "0123456789";
     message := String.concat "" (replicate 25 "0123456789");
     diffLines := replicate 3 (String.concat "" (replicate 5 "abcdefghij")) |}.

(** A content line of 500 code units, and a diff that holds it under the
    header of a file. *)
Definition longLine : string := "+" +:+ String.concat "" (replicate 499 "x").

Definition headedDiff : string :=
  "diff --git a/f.ts b/f.ts" +:+ LF +:+ longLine.

(** A summarizer whose answers hold no text. *)
Definition silentClient : Client :=
  λ _ _ _, inl {| output_text := None; output := Some [] |}.

(** A summarizer that answers the batch stages and has no text for the
    final request. *)
Definition silentAtFinal : Client :=
  λ _ _ instructions,
    if String.eqb instructions stageInstructions
    then inl {| output_text := Some "ok"; output := None |}
    else inl {| output_text := None; output := Some [] |}.

(** A repository whose commit changes one binary file. *)
Definition binaryGit : Git := λ args buffer,
  match args with
  | ["show"; "--numstat"; _; _] => inl (Js.join TAB ["-"; "-"; "img.png"])
  | _ => sampleGit args buffer
  end.

(** ** Further vocabulary: the planner *)

(** Consecutive chunks are split only where they must be: the first
    record of a chunk did not fit, with its separator, after the chunk
    before it. *)
Fixpoint greedy (maxChars : Z) (chunks : list (list CommitData)) : Prop :=
  match chunks with
  | a :: rest =>
      match rest with
      | [] => True
      | [] :: _ => False
      | (c :: _) :: _ =>
          maxChars < packedSize a + Js.len (formatCommitBlock c) + 2
          ∧ greedy maxChars rest
      end
  | [] => True
  end.

(** The chunks of a packing state, the open one included. *)
Definition planned (st : Packing) : list (list CommitData) :=
  match current st with
  | [] => chunks st
  | _ => chunks st ++ [current st]
  end.

(** ** Further vocabulary: prompts and stages *)

(** The header [buildPrompt] puts before the blocks of [count] commits. *)
Definition promptHeader (currentTag previousTag : string) (count : nat) : string :=
  Js.join LF
    [ "Release tag: " +:+ currentTag;
      if Js.truthy previousTag then "Previous tag: " +:+ previousTag
      else "Previous tag: (none)";
      "Commit count: " +:+ Js.ofInt (Z.of_nat count);
      "" ].

(** The request of the final stage of a staged run. *)
Definition finalRequest (model tag previousTag : string) (summaries : list string)
  (githubNotes : string) : LogEntry :=
  Submitted model (buildFinalPrompt tag previousTag summaries githubNotes)
    finalInstructions.

(** A batch stage answered with a text that is not empty. *)
Definition answered (client : Client) (model tag previousTag : string)
  (chunk : list CommitData) (text : string) : Prop :=
  stageAnswer client model tag previousTag chunk = Ok text ∧ text ≠ "".

(** A summarizer that answers every request with the same text. *)
Definition constantClient (text : string) : Client :=
  λ _ _ _, inl {| output_text := Some text; output := None |}.

(** A summarizer that rejects every request. *)
Definition rejectingClient (error : string) : Client := λ _ _ _, inr error.

(** A string that does not begin with white space. *)
Definition noLeadingSpace (s : string) : Prop :=
  match s with
  | EmptyString => True
  | String c _ => Js.isSpace c = false
  end.

(** ** Further vocabulary: git queries *)

(** A name read from the output of git: not empty, no white space at
    either end. *)
Definition cleanName (name : string) : Prop :=
  name ≠ "" ∧ Js.trim name = name.

Definition tagsArgs : list string :=
  ["for-each-ref"; "--sort=-creatordate"; "--format=%(refname:short)"; "refs/tags"].

Definition verifyArgs (override : string) : list string :=
  ["rev-parse"; "-q"; "--verify"; "refs/tags/" +:+ override].

Definition overrideNotFound (override : string) : string :=
  "Override previous tag " +:+ override +:+ " not found. Ensure tags are fetched.".

Definition logArgs (previousTag currentTag : string) : list string :=
  ["log"; "--reverse"; "--pretty=format:%H"; rangeOf previousTag currentTag].

(** A git that fails at every query. *)
Definition deadGit : Git := λ _ _, inr sampleFailure.

(** ** Further vocabulary: the records of commits *)

Definition messageArgs (sha : string) : list string :=
  ["log"; "-1"; "--pretty=format:%s%n%n%b"; sha].

Definition isWarning (entry : LogEntry) : Prop :=
  ∃ message, entry = LogWarning message.

(** An entry that begins with one of the paths of [paths], a colon and a
    space. *)
Definition labelled (paths : gset string) (entry : string) : Prop :=
  ∃ file text, file ∈ paths ∧ entry = file +:+ ": " +:+ text.

(** While the loop goes on, the lines collected are fewer than the cap,
    or none has been collected yet. *)
Definition belowCap (maxLines : Z) (lines : list string) : Prop :=
  Z.of_nat (length lines) < maxLines ∨ lines = [].

(** The paths whose lines [extractDiffLines] may keep are known for the
    file being read. *)
Definition labelInv (paths : gset string) (st : Extract) : Prop :=
  (includeFile st = true → currentFile st ∈ paths)
  ∧ Forall (labelled paths) (results st).

(** A string without the code unit [c]. *)
Definition without (c : ascii) (s : string) : Prop := Js.lastIndexOf s c = -1.

(** ** Further vocabulary: the contents of the arguments *)

(** The record behind a reference: its two strings and the lines its
    [diffLines] refers to. *)
Definition recordAt (w : Store.World) (commit : Store.Ref) : option CommitData :=
  match Store.heap w !! commit with
  | Some (Store.Commit sha message lines) =>
      match Store.heap w !! lines with
      | Some (Store.Lines items) =>
          Some {| sha := sha; message := message; diffLines := items |}
      | _ => None
      end
  | _ => None
  end.

(** The records behind a reference to an array of records, in the order
    of the array. *)
Definition recordsAt (w : Store.World) (commits : Store.Ref) : option (list CommitData) :=
  match Store.heap w !! commits with
  | Some (Store.Commits items) => mapM (recordAt w) items
  | _ => None
  end.

(** Two invocations, one after the other, in whatever world the first
    one leaves. *)
Definition twice {A} (call : Store.M A) : Store.M (A * A) :=
  Store.bind call (λ first, Store.bind call (λ second, Store.ret (first, second))).

(** A world that holds [smallCommit] in an array. *)
Definition callerWorld : Store.World :=
  {| Store.heap :=
       list_to_map
         [ (1%positive, Store.Commits [2%positive]);
           (2%positive, Store.Commit "0123456789" "hello world" 3%positive);
           (3%positive, Store.Lines ["a.ts: +x"; "a.ts: -y"]) ];
     Store.clock := 1700000000000;
     Store.entropy := 17 |}.

(** Another world, at another time, that holds a copy of the same
    contents behind other references, among other objects. *)
Definition otherWorld : Store.World :=
  {| Store.heap :=
       list_to_map
         [ (4%positive, Store.Lines ["a.ts: +x"; "a.ts: -y"]);
           (5%positive, Store.Lines ["unrelated"]);
           (6%positive, Store.Commit "0123456789" "hello world" 4%positive);
           (7%positive, Store.Commit "fedcba9876" "other" 5%positive);
           (8%positive, Store.Commits [6%positive]);
           (9%positive, Store.Commits [7%positive; 6%positive]) ];
     Store.clock := 1800000000000;
     Store.entropy := 4 |}.


(** * Properties *)

(** ** Lengths of strings *)

Lemma len_nonneg (s : string) : 0 <= Js.len s.
Proof. unfold Js.len. lia. Qed.

Lemma length_append (a b : string) :
  String.length (a +:+ b) = (String.length a + String.length b)%nat.
Proof. induction a as [|c a IH]; simpl; [done|]. by rewrite IH. Qed.

Lemma len_append (a b : string) : Js.len (a +:+ b) = Js.len a + Js.len b.
Proof. unfold Js.len. rewrite length_append. lia. Qed.

Lemma length_substring (n m : nat) (s : string) :
  String.length (String.substring n m s) = Nat.min m (String.length s - n).
Proof.
  revert n m.
  induction s as [|c s IH]; intros [|n] [|m]; simpl;
    rewrite ?IH, ?Nat.sub_0_r; done.
Qed.

Lemma substring_all (s : string) : String.substring 0 (String.length s) s = s.
Proof. induction s as [|c s IH]; simpl; [done|]. by rewrite IH. Qed.

(** [s.slice(0, k)] for [0 <= k <= s.length] has length [k]. *)
Lemma len_slice_prefix (s : string) (k : Z) :
  0 <= k <= Js.len s → Js.len (Js.slice s 0 k) = k.
Proof.
  intros Hk. unfold Js.slice, Js.relIndex, Js.len in *.
  rewrite length_substring.
  destruct (0 <? 0) eqn:E0; [lia|].
  destruct (k <? 0) eqn:Ek; [lia|].
  lia.
Qed.

Lemma len_join (sep : string) (xs : list string) :
  xs ≠ [] → Js.len (Js.join sep xs) = paddedLen (Js.len sep) xs - Js.len sep.
Proof.
  induction xs as [|x [|y rest] IH]; intros Hne; [done| |].
  - simpl. lia.
  - change (Js.join sep (x :: y :: rest)) with (x +:+ sep +:+ Js.join sep (y :: rest)).
    rewrite !len_append, IH by done.
    simpl. lia.
Qed.

Lemma paddedLen_app (sep : Z) (xs ys : list string) :
  paddedLen sep (xs ++ ys) = paddedLen sep xs + paddedLen sep ys.
Proof. induction xs as [|x xs IH]; simpl; lia. Qed.

(** ** The writer of log entries *)

Lemma lbind_fst {A B} (m : Logged A) (k : A → Logged B) :
  (lbind m k).1 = (k m.1).1.
Proof. unfold lbind. destruct m as [a l]. simpl. by destruct (k a). Qed.

Lemma lbind_snd {A B} (m : Logged A) (k : A → Logged B) :
  (lbind m k).2 = m.2 ++ (k m.1).2.
Proof. unfold lbind. destruct m as [a l]. simpl. by destruct (k a). Qed.

(** ** The reduction of one oversized record *)

Lemma pop_take {A} (xs : list A) : Js.pop xs = take (length xs - 1) xs.
Proof.
  unfold Js.pop. destruct xs as [|x xs _] using rev_ind; [done|].
  rewrite removelast_last, length_app. simpl.
  replace (length xs + 1 - 1)%nat with (length xs) by lia.
  by rewrite take_app_length.
Qed.

Lemma dropLoop_entry (commit : CommitData) (maxChars : Z) (msg : string)
  (lines : list string) (changed : bool) :
  dropLoop commit maxChars (loopEntry commit msg lines changed)
  = if decide (maxChars < Js.len (reblock commit msg lines) ∧ lines ≠ [])
    then dropLoop commit maxChars (loopEntry commit msg (Js.pop lines) true)
    else loopEntry commit msg lines changed.
Proof.
  rewrite dropLoop_equation_1. unfold loopEntry at 2. simpl.
  by destruct (decide _).
Qed.

Lemma dropIterations_entry (commit : CommitData) (maxChars : Z) (msg : string)
  (lines : list string) (changed : bool) :
  dropIterations commit maxChars (loopEntry commit msg lines changed)
  = if decide (maxChars < Js.len (reblock commit msg lines) ∧ lines ≠ [])
    then S (dropIterations commit maxChars (loopEntry commit msg (Js.pop lines) true))
    else O.
Proof.
  rewrite dropIterations_equation_1. unfold loopEntry at 2. simpl.
  by destruct (decide _).
Qed.

(** What the loop leaves: a prefix of the array, reached by removing
    [dropIterations] lines from the end, each removed because the block
    was still over budget; the block is re-measured; the loop stops as
    soon as the block fits or no line is left. *)
Lemma dropLoop_spec (commit : CommitData) (maxChars : Z) (msg : string)
  (lines : list string) (changed : bool) :
  let st := loopEntry commit msg lines changed in
  let n := dropIterations commit maxChars st in
  (n ≤ length lines)%nat
  ∧ dropLoop commit maxChars st
    = loopEntry commit msg (take (length lines - n) lines)
        (changed || bool_decide (n ≠ O))
  ∧ (∀ j, (length lines - n < j ≤ length lines)%nat →
          maxChars < Js.len (reblock commit msg (take j lines)))
  ∧ (Js.len (reblock commit msg (take (length lines - n) lines)) <= maxChars
     ∨ n = length lines).
Proof.
  cbv zeta.
  induction lines as [|x lines IH] using rev_ind in changed |- *;
    rewrite dropLoop_entry, dropIterations_entry.
  - destruct (decide _) as [[_ []]|Hstop]; [done|]. simpl.
    rewrite orb_false_r. split; [lia|]. split; [done|].
    split; [intros j Hj; lia|]. by right.
  - destruct (decide _) as [[Hover _]|Hstop].
    + rewrite pop_take, length_app. simpl.
      replace (length lines + 1 - 1)%nat with (length lines) by lia.
      rewrite take_app_length.
      destruct (IH true) as (Hle & Heq & Hall & Hend).
      set (n := dropIterations commit maxChars (loopEntry commit msg lines true)) in *.
      replace (length lines + 1 - S n)%nat with (length lines - n)%nat by lia.
      rewrite orb_true_r. split; [lia|]. split.
      { rewrite Heq. simpl. by rewrite take_app_le by lia. }
      split.
      { intros j Hj. destruct (decide (j = length lines + 1)%nat) as [->|Hne].
        - rewrite take_ge by (rewrite length_app; simpl; lia). done.
        - rewrite take_app_le by lia. apply Hall. lia. }
      rewrite take_app_le by lia. destruct Hend as [Hfit|Hn]; [by left|right; lia].
    + rewrite orb_false_r, Nat.sub_0_r, length_app. simpl.
      rewrite take_ge by (rewrite length_app; simpl; lia).
      split; [lia|]. split; [done|]. split; [intros j Hj; lia|].
      left. apply Z.nlt_ge. intros Hover. apply Hstop. split; [done|].
      by destruct lines.
Qed.

Lemma trimText_fits (text : string) (maxLength : Z) :
  Js.len text <= maxLength → trimText text maxLength = text.
Proof. intros H. unfold trimText. by rewrite (proj2 (Z.leb_le _ _) H). Qed.

Lemma withMessageAndDiff_same (c : CommitData) :
  withMessageAndDiff c (message c) (diffLines c) = c.
Proof. by destruct c. Qed.

(** [truncateCommit] in closed form. With [n] the number of iterations
    of the loop and [kept] the lines that are left, the record returned
    holds the message cut to the quarter and [kept] when that block
    fits, and is [floorRecord] otherwise; one notice is logged when the
    message was cut, or a line was removed, or the floor was reached. *)
Lemma truncateCommit_closed (commit : CommitData) (maxChars : Z) :
  let cut := bool_decide (Z.max 200 (maxChars / 4) < Js.len (message commit)) in
  let m1 := quarterMessage commit maxChars in
  let n := dropIterations commit maxChars (loopEntry commit m1 (diffLines commit) cut) in
  let kept := take (length (diffLines commit) - n) (diffLines commit) in
  let over := bool_decide (maxChars < Js.len (reblock commit m1 kept)) in
  truncateCommit commit maxChars
  = (if over then floorRecord commit maxChars else withMessageAndDiff commit m1 kept,
     if cut || bool_decide (n ≠ O) || over then [truncationNotice commit] else []).
Proof.
  intros cut m1 n kept over. unfold truncateCommit.
  set (st0 := if Z.max 200 _ <? _ then _ else _).
  assert (Hst0 : st0 = {| t_message := m1; t_diffLines := diffLines commit;
                          t_changed := cut; t_block := "" |}).
  { subst st0 cut m1. unfold quarterMessage.
    destruct (Z.ltb_spec (Z.max 200 (maxChars / 4)) (Js.len (message commit))) as [Hlt|Hge].
    - by rewrite bool_decide_eq_true_2.
    - rewrite bool_decide_eq_false_2 by lia. by rewrite trimText_fits. }
  rewrite Hst0. simpl. fold (loopEntry commit m1 (diffLines commit) cut).
  destruct (dropLoop_spec commit maxChars m1 (diffLines commit) cut)
    as (Hle & -> & _ & Hend).
  fold n. fold kept. simpl.
  assert (Hkept : maxChars < Js.len (reblock commit m1 kept) → kept = []).
  { intros Hover. destruct Hend as [Hfit|Hn]; [fold n kept in Hfit; lia|].
    subst kept. fold n in Hn. rewrite Hn, Nat.sub_diag. done. }
  subst over.
  destruct (Z.ltb_spec maxChars (Js.len (reblock commit m1 kept))) as [Hover|Hfit].
  - rewrite (bool_decide_eq_true_2 (maxChars < _)) by done.
    pose proof (Hkept Hover) as Hnil. rewrite Hnil in Hover |- *. simpl.
    rewrite (proj2 (Z.ltb_lt _ _) Hover). simpl.
    by rewrite !orb_true_r.
  - rewrite (bool_decide_eq_false_2 (maxChars < _)) by lia. simpl.
    rewrite (proj2 (Z.ltb_ge _ _) Hfit). simpl.
    by rewrite orb_false_r.
Qed.

Lemma truncateCommit_sha (commit : CommitData) (maxChars : Z) :
  sha (truncateCommit commit maxChars).1 = sha commit.
Proof. rewrite truncateCommit_closed. simpl. by destruct (bool_decide _). Qed.

(** After the reduction the block fits, or the record is the floor. *)
Lemma truncateCommit_fits_or_floor (commit : CommitData) (maxChars : Z) :
  Js.len (formatCommitBlock (truncateCommit commit maxChars).1) <= maxChars
  ∨ ((truncateCommit commit maxChars).1 = floorRecord commit maxChars
     ∧ maxChars < Js.len (formatCommitBlock (floorRecord commit maxChars))).
Proof.
  rewrite truncateCommit_closed. simpl.
  destruct (bool_decide _) eqn:Hover.
  - apply bool_decide_eq_true_1 in Hover.
    destruct (Z.le_gt_cases (Js.len (formatCommitBlock (floorRecord commit maxChars)))
                maxChars); [by left|right]. split; [done|lia].
  - apply bool_decide_eq_false_1 in Hover. left. unfold reblock in Hover. lia.
Qed.

(** A record whose block is over budget is always reported. *)
Lemma truncateCommit_notice (commit : CommitData) (maxChars : Z) :
  maxChars < Js.len (formatCommitBlock commit) →
  (truncateCommit commit maxChars).2 = [truncationNotice commit].
Proof.
  intros Hover. rewrite truncateCommit_closed. simpl.
  destruct (bool_decide (Z.max 200 _ < _)) eqn:Hcut; [done|].
  apply bool_decide_eq_false_1 in Hcut.
  destruct (bool_decide (_ ≠ O)) eqn:Hn; [done|].
  apply bool_decide_eq_false_1 in Hn. apply dec_stable in Hn.
  rewrite Hn, Nat.sub_0_r, take_ge by lia.
  unfold quarterMessage. rewrite trimText_fits by lia.
  unfold reblock. rewrite withMessageAndDiff_same.
  by rewrite bool_decide_eq_true_2.
Qed.

(** ** The packing of records into chunks *)

Lemma chunkChars_packed (chunk : list CommitData) :
  chunk ≠ [] → chunkChars chunk = packedSize chunk - 2.
Proof.
  intros Hne. unfold chunkChars, packedSize.
  rewrite len_join by (by destruct chunk). done.
Qed.

Lemma packedSize_snoc (chunk : list CommitData) (c : CommitData) :
  packedSize (chunk ++ [c]) = packedSize chunk + Js.len (formatCommitBlock c) + 2.
Proof. unfold packedSize. rewrite map_app, paddedLen_app. simpl. lia. Qed.

Lemma closed_chunk_ok (maxChars : Z) (st : Packing) :
  PackInv maxChars st → current st ≠ [] →
  current st ≠ [] ∧ fitsOrSingle maxChars (current st).
Proof.
  intros [_ _ Hcur] Hne. split; [done|].
  destruct Hcur as [?|[Hone|Hfit]]; [done|by right|left].
  rewrite chunkChars_packed by done. lia.
Qed.

Lemma chunkStep_inv (maxChars : Z) (st : Packing) (commit : CommitData) :
  PackInv maxChars st → PackInv maxChars (chunkStep maxChars st commit).1.
Proof.
  intros Hinv. unfold chunkStep. rewrite lbind_fst.
  set (candidate := (candidateOf maxChars commit).1). simpl.
  destruct (bool_decide (current st ≠ [])) eqn:Hne; simpl.
  - apply bool_decide_eq_true_1 in Hne.
    destruct (Z.ltb_spec maxChars
                (currentSize st + Js.len (formatCommitBlock candidate) + 2))
      as [Hover|Hfit]; simpl.
    + split; simpl.
      * unfold packedSize. simpl. lia.
      * apply Forall_app. split; [apply Hinv|].
        apply Forall_singleton. by apply closed_chunk_ok.
      * right. left. by exists candidate.
    + split; simpl.
      * rewrite packedSize_snoc, (inv_size _ _ Hinv). done.
      * apply Hinv.
      * right. right. rewrite packedSize_snoc, <- (inv_size _ _ Hinv). done.
  - apply bool_decide_eq_false_1 in Hne. apply dec_stable in Hne.
    split; simpl.
    + rewrite packedSize_snoc, (inv_size _ _ Hinv). done.
    + apply Hinv.
    + right. left. rewrite Hne. by exists candidate.
Qed.

Lemma chunkStep_flat (maxChars : Z) (st : Packing) (commit : CommitData) :
  flat (chunkStep maxChars st commit).1 = flat st ++ [(candidateOf maxChars commit).1].
Proof.
  unfold chunkStep, flat. rewrite lbind_fst. simpl.
  destruct (bool_decide _ && _); simpl; [|by rewrite app_assoc].
  rewrite concat_app. simpl. by rewrite app_nil_r.
Qed.

Lemma lfold_chunkStep (maxChars : Z) (commits : list CommitData) (st : Packing) :
  PackInv maxChars st →
  let st' := (lfold (chunkStep maxChars) commits st).1 in
  PackInv maxChars st'
  ∧ flat st' = flat st ++ map (λ c, (candidateOf maxChars c).1) commits.
Proof.
  induction commits as [|c commits IH] in st |- *; intros Hinv; simpl.
  - by rewrite app_nil_r.
  - rewrite lbind_fst.
    destruct (IH _ (chunkStep_inv maxChars st c Hinv)) as [Hinv' Hflat].
    split; [done|]. rewrite Hflat, chunkStep_flat, <- app_assoc. done.
Qed.

(** The chunks of [chunkCommits]: none is empty, each is within budget
    or holds a single record, and together they hold the candidates of
    the records, in order. *)
Lemma chunkCommits_chunks (commits : list CommitData) (maxChars : Z) :
  let result := (chunkCommits commits maxChars).1 in
  Forall (λ chunk, chunk ≠ [] ∧ fitsOrSingle maxChars chunk) result
  ∧ concat result = map (λ c, (candidateOf maxChars c).1) commits.
Proof.
  unfold chunkCommits. rewrite lbind_fst. simpl.
  destruct (lfold_chunkStep maxChars commits
              {| chunks := []; current := []; currentSize := 0 |})
    as [Hinv Hflat].
  { split; simpl; [done|done|by left]. }
  revert Hinv Hflat. generalize (lfold (chunkStep maxChars) commits
    {| chunks := []; current := []; currentSize := 0 |}).1.
  intros st Hinv Hflat. unfold flat in Hflat. simpl in Hflat.
  destruct (bool_decide (current st ≠ [])) eqn:Hne.
  - apply bool_decide_eq_true_1 in Hne. split.
    + apply Forall_app. split; [apply Hinv|].
      apply Forall_singleton. by apply closed_chunk_ok.
    + rewrite concat_app. simpl. by rewrite app_nil_r.
  - apply bool_decide_eq_false_1 in Hne. apply dec_stable in Hne.
    split; [apply Hinv|]. rewrite Hne, app_nil_r in Hflat. done.
Qed.

Lemma len_slice_le (s : string) (a b : Z) : Js.len (Js.slice s a b) <= Js.len s.
Proof. unfold Js.slice, Js.len. rewrite length_substring. lia. Qed.

Lemma len_trimText_le (text : string) (maxLength : Z) :
  Js.len (trimText text maxLength) <= Js.len text.
Proof.
  unfold trimText.
  destruct (Z.leb_spec (Js.len text) maxLength) as [Hfit|Hover]; [lia|].
  destruct (Z.leb_spec maxLength 3) as [Hsmall|Hbig]; [apply len_slice_le|].
  rewrite len_append, len_slice_prefix by lia.
  change (Js.len "...") with 3. lia.
Qed.

Lemma len_trimText_bound (text : string) (maxLength : Z) :
  0 <= maxLength → Js.len (trimText text maxLength) <= maxLength.
Proof.
  intros Hpos. unfold trimText.
  destruct (Z.leb_spec (Js.len text) maxLength) as [Hfit|Hover]; [lia|].
  destruct (Z.leb_spec maxLength 3) as [Hsmall|Hbig].
  - rewrite len_slice_prefix; lia.
  - rewrite len_append, len_slice_prefix by lia.
    change (Js.len "...") with 3. lia.
Qed.

Lemma candidateOf_reduced (maxChars : Z) (c : CommitData) :
  reducedFrom c (candidateOf maxChars c).1.
Proof.
  unfold candidateOf. destruct (_ <? _); [|done].
  rewrite truncateCommit_closed. simpl.
  destruct (bool_decide _); (split; [done|]); simpl.
  - split; [apply prefix_nil|].
    etrans; [apply len_trimText_le|apply len_trimText_le].
  - split; [apply prefix_take|apply len_trimText_le].
Qed.

(** C10. Every chunk produced by [chunkCommits] holds at least one
    record, and the chunks put end to end hold, position by position,
    the records given: each with its sha unchanged, a prefix of its diff
    lines and a message that is not longer. In particular the sequence
    of shas is the original one: no record is dropped, duplicated or
    moved. *)
Theorem chunkCommits_keeps_shas (commits : list CommitData) (maxChars : Z) :
  let result := (chunkCommits commits maxChars).1 in
  Forall (λ chunk, chunk ≠ []) result
  ∧ map sha (concat result) = map sha commits
  ∧ Forall2 reducedFrom commits (concat result).
Proof.
  intros result.
  destruct (chunkCommits_chunks commits maxChars) as [Hall Hconcat].
  fold result in Hall, Hconcat. split; [|split].
  - eapply Forall_impl; [exact Hall|]. by intros chunk [Hne _].
  - rewrite Hconcat, map_map. apply map_ext. intros c.
    apply candidateOf_reduced.
  - rewrite Hconcat. apply Forall2_fmap_r, Forall_Forall2_diag, Forall_forall.
    intros c _. apply candidateOf_reduced.
Qed.

(** C1, as stated, fails: with a budget of 120 the only record is over
    budget, [chunkCommits] hands it to [truncateCommit], and the chunks
    hold a record that has lost its last diff line, not the original. *)
Lemma chunkCommits_modifies_oversized :
  concat (chunkCommits [smallCommit] 120).1 ≠ [smallCommit]
  ∧ concat (chunkCommits [smallCommit] 120).1
    = [ {| sha := "0123456789"; message := "hello world";
           diffLines := ["a.ts: +x"] |} ].
Proof. split; [|by vm_compute]. vm_compute. discriminate. Qed.

Lemma chunkChars_single (c : CommitData) :
  chunkChars [c] = Js.len (formatCommitBlock c).
Proof. done. Qed.

Lemma candidateOf_cases (maxChars : Z) (c : CommitData) :
  (candidateOf maxChars c).1
  = if decide (Js.len (formatCommitBlock c) <= maxChars) then c
    else (truncateCommit c maxChars).1.
Proof.
  unfold candidateOf.
  destruct (Z.ltb_spec maxChars (Js.len (formatCommitBlock c)));
    destruct (decide _); done || lia.
Qed.

(** A chunk over budget holds one record, reduced to its floor. *)
Lemma chunkCommits_sizes (commits : list CommitData) (maxChars : Z) :
  Forall (λ chunk,
    chunkChars chunk <= maxChars
    ∨ ∃ c, c ∈ commits
           ∧ maxChars < Js.len (formatCommitBlock c)
           ∧ chunk = [floorRecord c maxChars]
           ∧ maxChars < Js.len (formatCommitBlock (floorRecord c maxChars)))
    (chunkCommits commits maxChars).1.
Proof.
  destruct (chunkCommits_chunks commits maxChars) as [Hall Hconcat].
  apply Forall_forall. intros chunk Hin.
  destruct (proj1 (Forall_forall _ _) Hall chunk Hin) as [_ [Hfit|[c' ->]]];
    [by left|].
  assert (Hc' : c' ∈ concat (chunkCommits commits maxChars).1).
  { apply list_elem_of_In, in_concat. exists [c'].
    split; [by apply list_elem_of_In|by left]. }
  rewrite Hconcat in Hc'. apply list_elem_of_fmap in Hc' as (c & -> & Hc).
  rewrite candidateOf_cases. destruct (decide _) as [Hfit|Hover].
  - left. by rewrite chunkChars_single.
  - destruct (truncateCommit_fits_or_floor c maxChars) as [Hfit|[Heq Hstill]].
    + left. by rewrite chunkChars_single.
    + right. exists c. rewrite Heq. split; [done|]. split; [lia|]. done.
Qed.

(** C1, amended. The chunks of [chunkCommits], put end to end, are the
    records given, in order, where each record whose block fits the
    budget is untouched and each record whose block is over budget is
    replaced by its reduction by [truncateCommit]. Every chunk's
    serialized size is at most the budget, except a chunk that holds a
    single record reduced to its floor (no diff line, message cut twice)
    whose block is still over budget. *)
Theorem chunkCommits_partition (commits : list CommitData) (maxChars : Z) :
  let result := (chunkCommits commits maxChars).1 in
  concat result
  = map (λ c, if decide (Js.len (formatCommitBlock c) <= maxChars) then c
              else (truncateCommit c maxChars).1) commits
  ∧ Forall (λ chunk,
      chunkChars chunk <= maxChars
      ∨ ∃ c, c ∈ commits
             ∧ maxChars < Js.len (formatCommitBlock c)
             ∧ chunk = [floorRecord c maxChars]
             ∧ maxChars < Js.len (formatCommitBlock (floorRecord c maxChars)))
      result.
Proof.
  intros result. split; [|apply chunkCommits_sizes].
  subst result.
  rewrite (proj2 (chunkCommits_chunks commits maxChars)).
  apply map_ext, candidateOf_cases.
Qed.

(** Replaces the length of every literal string by its value. *)
Ltac has_variable s := match s with context [?x] => is_var x end.

Ltac closed_lens :=
  repeat match goal with
         | |- context [Js.len ?s] =>
             tryif has_variable s then fail
             else (let v := eval vm_compute in (Js.len s) in
                   progress change (Js.len s) with v)
         end.

Lemma len_slice_bound (s : string) (k : Z) : 0 <= k → Js.len (Js.slice s 0 k) <= k.
Proof.
  intros Hk. unfold Js.slice, Js.relIndex, Js.len. rewrite length_substring.
  destruct (Z.ltb_spec 0 0) as [?|_]; [lia|].
  destruct (Z.ltb_spec k 0) as [?|_]; lia.
Qed.

(** The block of a record without diff lines: 119 code units of fixed
    text and separators, the short sha and the message. *)
Lemma len_block_no_diff (c : CommitData) :
  diffLines c = [] →
  Js.len (formatCommitBlock c)
  = 119 + Js.len (Js.slice (sha c) 0 7) + Js.len (message c).
Proof.
  intros Hnone. unfold formatCommitBlock. rewrite Hnone.
  rewrite len_join by done. cbn [paddedLen map].
  rewrite len_append. closed_lens. lia.
Qed.

(** From a budget of 176 code units on, the floor fits. *)
Lemma floorRecord_fits (c : CommitData) (maxChars : Z) :
  176 <= maxChars → Js.len (formatCommitBlock (floorRecord c maxChars)) <= maxChars.
Proof.
  intros Hbudget. rewrite len_block_no_diff by done. simpl.
  pose proof (len_slice_bound (sha c) 7).
  pose proof (len_trimText_bound (quarterMessage c maxChars)
                (Z.max 50 (maxChars - 200))).
  lia.
Qed.

(** From a budget of 176 code units on, every chunk is within budget. *)
Corollary chunkCommits_within_budget (commits : list CommitData) (maxChars : Z) :
  176 <= maxChars →
  Forall (λ chunk, chunkChars chunk <= maxChars) (chunkCommits commits maxChars).1.
Proof.
  intros Hbudget. eapply Forall_impl; [apply chunkCommits_sizes|]. simpl.
  intros chunk [Hfit|(c & _ & _ & _ & Hover)]; [done|].
  pose proof (floorRecord_fits c maxChars Hbudget). lia.
Qed.

(** The budget [run] gives to [chunkCommits] is at least 1000: all the
    chunks it plans are within that budget. *)
Corollary run_chunks_within_budget (commits : list CommitData) (maxStageChars : Z) :
  let chunkBudget := Z.max 1000 (maxStageChars - 2000) in
  Forall (λ chunk, chunkChars chunk <= chunkBudget) (chunkCommits commits chunkBudget).1.
Proof.
  cbv zeta. set (chunkBudget := Z.max 1000 (maxStageChars - 2000)).
  eapply Forall_impl; [apply chunkCommits_sizes|]. simpl.
  intros chunk [Hfit|(c & _ & _ & _ & Hover)]; [done|].
  pose proof (floorRecord_fits c chunkBudget). lia.
Qed.


(** ** The progressive reduction, step by step *)

(** C4, as stated, fails: with a budget of 400 the message of
    [wideCommit] is cut and two of its diff lines are removed, three
    reduction steps, and the logger receives one notice. *)
Lemma truncateCommit_one_notice_for_three_steps :
  ¬ noticePerStep wideCommit 400
  ∧ reductionSteps wideCommit 400 = 3%nat
  ∧ (truncateCommit wideCommit 400).2 = [truncationNotice wideCommit]
  ∧ Js.len (message (truncateCommit wideCommit 400).1) = 200
  ∧ length (diffLines (truncateCommit wideCommit 400).1) = 1%nat.
Proof.
  split; [|by vm_compute]. unfold noticePerStep. vm_compute. discriminate.
Qed.

(** C4, amended. For a record whose block is over budget,
    [truncateCommit] applies in this order: the message is cut to
    [max 200 (maxChars / 4)] code units when it is longer; diff lines
    are removed from the end one at a time, the block being measured
    again after each, until it fits or no line is left, which takes at
    most as many iterations as the record has diff lines; if the block
    is still over budget, which can only be with no line left, the
    message is cut again, to [max 50 (maxChars - 200)]. The separate
    step that drops all diff lines never has anything to drop. One
    notice naming the commit by its short sha is logged for the whole
    reduction, not one per step. *)
Theorem truncateCommit_policy (c : CommitData) (maxChars : Z) :
  maxChars < Js.len (formatCommitBlock c) →
  let m1 := quarterMessage c maxChars in
  let n := droppedLines c maxChars in
  let kept := keptLines c maxChars in
  Js.len m1 <= Z.max 200 (maxChars / 4)
  ∧ (n ≤ length (diffLines c))%nat
  ∧ (∀ j, (length (diffLines c) - n < j ≤ length (diffLines c))%nat →
          maxChars < Js.len (reblock c m1 (take j (diffLines c))))
  ∧ (Js.len (reblock c m1 kept) <= maxChars ∨ kept = [])
  ∧ (truncateCommit c maxChars).1
    = (if floorReached c maxChars
       then withMessageAndDiff c (trimText m1 (Z.max 50 (maxChars - 200))) []
       else withMessageAndDiff c m1 kept)
  ∧ (truncateCommit c maxChars).2 = [truncationNotice c].
Proof.
  intros Hover m1 n kept.
  destruct (dropLoop_spec c maxChars m1 (diffLines c) (messageCut c maxChars))
    as (Hle & _ & Hall & Hend).
  split; [apply len_trimText_bound; lia|].
  split; [exact Hle|]. split; [exact Hall|]. split.
  { destruct Hend as [Hfit|Hn]; [by left|right].
    subst kept. unfold keptLines, droppedLines. fold m1.
    by rewrite Hn, Nat.sub_diag. }
  split; [|by apply truncateCommit_notice].
  by rewrite truncateCommit_closed.
Qed.

(** The premise is met by [wideCommit] with a budget of 400. *)
Lemma truncateCommit_policy_witness :
  400 < Js.len (formatCommitBlock wideCommit)
  ∧ (truncateCommit wideCommit 400).2 = [truncationNotice wideCommit].
Proof.
  assert (H : 400 < Js.len (formatCommitBlock wideCommit)) by (by vm_compute).
  split; [exact H|].
  exact (proj2 (proj2 (proj2 (proj2 (proj2 (truncateCommit_policy wideCommit 400 H)))))).
Defined.

(** ** The previous tag *)

Lemma indexOf_first (pre rest : list string) (t : string) :
  t ∉ pre → indexOf (pre ++ t :: rest) t = Some (length pre).
Proof.
  induction pre as [|x pre IH]; intros Hnot; simpl.
  - by rewrite bool_decide_eq_true_2.
  - apply not_elem_of_cons in Hnot as [Hne Hnot].
    rewrite bool_decide_eq_false_2 by done. by rewrite IH.
Qed.

Lemma indexOf_absent (tags : list string) (t : string) :
  t ∉ tags → indexOf tags t = None.
Proof.
  induction tags as [|x tags IH]; intros Hnot; simpl; [done|].
  apply not_elem_of_cons in Hnot as [Hne Hnot].
  rewrite bool_decide_eq_false_2 by done. by rewrite IH.
Qed.

(** Without an override, the answer is read off the tag list at the
    first occurrence of the current tag. *)
Lemma resolvePreviousTag_at (git : Git) (current : string) (pre rest : list string) :
  listTags git = pre ++ current :: rest → current ∉ pre →
  resolvePreviousTag git current ""
  = match rest with
    | [] => (Ok "", [NO_PREVIOUS])
    | next :: _ => (Ok next, [])
    end.
Proof.
  intros Htags Hnot. unfold resolvePreviousTag. simpl. rewrite Htags.
  assert (Hne : Js.nonEmpty (pre ++ current :: rest) = true) by (by destruct pre).
  rewrite Hne. simpl. rewrite indexOf_first by done.
  replace (S (length pre)) with (length pre + 1)%nat by lia.
  rewrite lookup_app_r by lia.
  replace (length pre + 1 - length pre)%nat with 1%nat by lia.
  simpl. by destruct rest.
Qed.

(** C3. Let [tags] be the list of tags, newest first, names being
    unique. Without an override, [resolvePreviousTag] returns the tag
    that follows the current one when there is one, returns the empty
    string, the sentinel for "no previous tag", when the current tag is
    last, throws the "no tags" error when the list is empty, and throws
    the "tag not found" error naming the current tag when the list is
    not empty and does not hold it. *)
Theorem resolvePreviousTag_spec (git : Git) (current : string) (tags : list string) :
  listTags git = tags → NoDup tags →
  (tags = [] → resolvePreviousTag git current "" = (Threw NO_TAGS, []))
  ∧ (tags ≠ [] → current ∉ tags →
     resolvePreviousTag git current "" = (Threw (tagNotFound current), []))
  ∧ (∀ pre next post, tags = pre ++ current :: next :: post →
     resolvePreviousTag git current "" = (Ok next, []))
  ∧ (∀ pre, tags = pre ++ [current] →
     resolvePreviousTag git current "" = (Ok "", [NO_PREVIOUS])).
Proof.
  intros Htags Hnodup.
  assert (Hfirst : ∀ pre rest, tags = pre ++ current :: rest → current ∉ pre).
  { intros pre rest ->. apply NoDup_app in Hnodup as (_ & Hdisj & _).
    intros Hin. apply (Hdisj _ Hin). by left. }
  split; [|split; [|split]].
  - intros ->. unfold resolvePreviousTag. simpl. by rewrite Htags.
  - intros Hne Hnot. unfold resolvePreviousTag. simpl. rewrite Htags.
    destruct tags as [|x tags']; [done|]. simpl negb. cbv iota.
    by rewrite indexOf_absent.
  - intros pre next post ->.
    by rewrite (resolvePreviousTag_at git current pre (next :: post)) by eauto.
  - intros pre ->.
    by rewrite (resolvePreviousTag_at git current pre []) by eauto.
Qed.

(** The premises are met by [sampleGit], where the tag after [v1.1.0] is
    [v1.0.0]. *)
Lemma resolvePreviousTag_spec_witness :
  listTags sampleGit = ["v1.1.0"; "v1.0.0"]
  ∧ NoDup ["v1.1.0"; "v1.0.0"]
  ∧ resolvePreviousTag sampleGit "v1.1.0" "" = (Ok "v1.0.0", []).
Proof.
  assert (Htags : listTags sampleGit = ["v1.1.0"; "v1.0.0"]) by (by vm_compute).
  assert (Hnodup : NoDup ["v1.1.0"; "v1.0.0"]).
  { apply NoDup_cons. split; [|apply NoDup_singleton].
    intros Hin. apply list_elem_of_singleton in Hin. discriminate. }
  split; [exact Htags|]. split; [exact Hnodup|].
  exact (proj1 (proj2 (proj2
           (resolvePreviousTag_spec sampleGit "v1.1.0" _ Htags Hnodup)))
           [] "v1.0.0" [] eq_refl).
Defined.

(** ** The commit range *)

Lemma asliceFrom_drop {A} (xs : list A) (k : Z) :
  0 <= k <= Z.of_nat (length xs) → Js.asliceFrom xs k = drop (Z.to_nat k) xs.
Proof.
  intros Hk. unfold Js.asliceFrom, Js.aslice, Js.relIndex.
  destruct (Z.ltb_spec k 0) as [?|_]; [lia|].
  destruct (Z.ltb_spec (Z.of_nat (length xs)) 0) as [?|_]; [lia|].
  rewrite (Z.min_l k), Z.min_id by lia.
  apply take_ge. rewrite length_drop. lia.
Qed.

(** C6. Let [commits] be the chronological list read from [git log
    --reverse] for the range. When it holds more than [maxCommits]
    entries, [getCommitShas] returns its last [maxCommits] entries, in
    the same order, and logs one notice that gives both counts. When
    the output of git is empty, it returns the empty list, with no
    error and no notice. *)
Theorem getCommitShas_spec (git : Git) (previousTag currentTag output : string)
  (maxCommits : Z) :
  runGit git ["log"; "--reverse"; "--pretty=format:%H"; rangeOf previousTag currentTag]
    defaults = Ok output →
  let commits := commitsOf output in
  (0 <= maxCommits < Z.of_nat (length commits) →
   getCommitShas git previousTag currentTag maxCommits
   = (Ok (drop (length commits - Z.to_nat maxCommits) commits),
      [countNotice (Z.of_nat (length commits)) maxCommits])
   ∧ Z.of_nat (length (drop (length commits - Z.to_nat maxCommits) commits))
     = maxCommits)
  ∧ (output = "" → getCommitShas git previousTag currentTag maxCommits = (Ok [], [])).
Proof.
  intros Hrun commits. unfold getCommitShas. fold (rangeOf previousTag currentTag).
  rewrite Hrun. simpl. split.
  - intros Hcap.
    assert (Hout : Js.truthy output = true).
    { destruct output; [|done]. subst commits. simpl in Hcap. lia. }
    rewrite Hout. simpl. fold LF. fold (commitsOf output). fold commits.
    rewrite (proj2 (Z.ltb_lt _ _)) by lia. simpl.
    rewrite asliceFrom_drop by lia.
    replace (Z.to_nat (Z.of_nat (length commits) - maxCommits))
      with (length commits - Z.to_nat maxCommits)%nat by lia.
    split; [done|]. rewrite length_drop. lia.
  - by intros ->.
Qed.

(** The premise is met by [sampleGit], whose range holds three commits;
    with a cap of two the oldest is dropped. *)
Lemma getCommitShas_spec_witness :
  runGit sampleGit ["log"; "--reverse"; "--pretty=format:%H"; rangeOf "v1.0.0" "v1.1.0"]
    defaults = Ok (Js.join LF ["aaa"; "bbb"; "ccc"])
  ∧ getCommitShas sampleGit "v1.0.0" "v1.1.0" 2
    = (Ok ["bbb"; "ccc"], [countNotice 3 2]).
Proof.
  assert (Hrun : runGit sampleGit
            ["log"; "--reverse"; "--pretty=format:%H"; rangeOf "v1.0.0" "v1.1.0"]
            defaults = Ok (Js.join LF ["aaa"; "bbb"; "ccc"])) by (by vm_compute).
  split; [exact Hrun|].
  refine (proj1 (proj1 (getCommitShas_spec sampleGit "v1.0.0" "v1.1.0" _ 2 Hrun) _)).
  by vm_compute.
Defined.

(** ** Degradation of the diff of a commit *)

Lemma runGit_diff (git : Git) (sha : string) :
  runGit git (diffArgs sha) diffOptions
  = match git (diffArgs sha) (Some DIFF_BUFFER) with
    | inl diff => Ok diff
    | inr err => Threw (gitError (diffArgs sha) err)
    end.
Proof. unfold runGit. simpl. by destruct (git _ _). Qed.

(** The [try]/[catch] of [buildCommitData], case by case. *)
Lemma readDiffLines_cases (git : Git) (sha : string) (maxDiffLines : Z)
  (sourcePaths : list string) :
  let summary := map summarizeSource (Js.aslice sourcePaths 0 maxDiffLines) in
  let allowed := Some (list_to_set sourcePaths) in
  readDiffLines git sha maxDiffLines sourcePaths
  = match sourcePaths with
    | [] => (Ok [], [])
    | _ =>
        match git (diffArgs sha) (Some DIFF_BUFFER) with
        | inr err => (Ok summary, [diffWarning sha (gitError (diffArgs sha) err)])
        | inl diff =>
            match collected diff maxDiffLines allowed with
            | [] =>
                match fallbackFileChanges git sha maxDiffLines with
                | Ok listing => (Ok listing, [])
                | Threw error => (Ok summary, [diffWarning sha error])
                end
            | lines => (Ok lines, [])
            end
        end
    end.
Proof.
  unfold readDiffLines. destruct sourcePaths as [|p ps]; [done|].
  cbv zeta. change (Js.nonEmpty (p :: ps)) with true. cbv iota.
  fold (diffArgs sha). fold diffOptions. rewrite runGit_diff.
  destruct (git (diffArgs sha) (Some DIFF_BUFFER)) as [diff|err]; [|done].
  unfold obind, extractDiffLines. fold LF.
  fold (collected diff maxDiffLines (Some (list_to_set (p :: ps)))).
  destruct (collected diff maxDiffLines _) as [|l ls]; simpl; [|done].
  by destruct (fallbackFileChanges git sha maxDiffLines).
Qed.

(** The [try]/[catch] always leaves a value. *)
Lemma readDiffLines_total (git : Git) (sha : string) (maxDiffLines : Z)
  (sourcePaths : list string) :
  ∃ content log, readDiffLines git sha maxDiffLines sourcePaths = (Ok content, log).
Proof.
  rewrite readDiffLines_cases. destruct sourcePaths as [|p ps]; [by eauto|].
  destruct (git _ _) as [diff|err]; [|by eauto].
  destruct (collected _ _ _); [|by eauto].
  destruct (fallbackFileChanges _ _ _); by eauto.
Qed.

(** The record [buildCommitData] makes of one commit once the message
    and the file statistics have been read. *)
Lemma buildCommit_record (git : Git) (maxDiffLines : Z) (extensions : gset string)
  (sha logOutput : string) (fileStats : list FileStat) (content : list string)
  (log : list LogEntry) :
  runGit git ["log"; "-1"; "--pretty=format:%s%n%n%b"; sha] defaults = Ok logOutput →
  getFileStats git sha extensions = Ok fileStats →
  readDiffLines git sha maxDiffLines (sourcePathsOf fileStats) = (Ok content, log) →
  buildCommit git maxDiffLines extensions sha
  = (Ok {| sha := sha;
           message := if Js.truthy (Js.trim logOutput) then Js.trim logOutput
                      else "(no commit message)";
           diffLines :=
             Js.aslice (content ++ nonSourceEntriesOf fileStats) 0 maxDiffLines |},
     log).
Proof.
  intros Hlog Hstats Hread. unfold buildCommit.
  rewrite Hlog, Hstats. simpl. rewrite Hread. simpl. by rewrite app_nil_r.
Qed.

Lemma aslice_take {A} (xs : list A) (k : Z) :
  0 <= k → Js.aslice xs 0 k = take (Z.to_nat k) xs.
Proof.
  intros Hk. unfold Js.aslice, Js.relIndex.
  destruct (Z.ltb_spec 0 0) as [?|_]; [lia|].
  destruct (Z.ltb_spec k 0) as [?|_]; [lia|].
  set (n := Z.of_nat (length xs)).
  replace (Z.to_nat (Z.min 0 n)) with O by lia.
  replace (Z.to_nat (Z.max (Z.min k n - Z.min 0 n) 0))
    with (Nat.min (Z.to_nat k) (length xs)) by lia.
  unfold drop.
  destruct (Nat.le_gt_cases (Z.to_nat k) (length xs)) as [Hle|Hgt].
  - by rewrite Nat.min_l.
  - rewrite Nat.min_r, !take_ge by lia. done.
Qed.

Lemma fallbackLoop_lines (maxLines : Z) (lines results : list string) :
  Forall statusLine results → Forall statusLine (fallbackLoop maxLines lines results).
Proof.
  induction lines as [|line lines IH] in results |- *; intros Hres; simpl; [done|].
  destruct (negb (Js.truthy (Js.trim line))); [by apply IH|].
  destruct (Js.split line (String "009" "")) as [|status pathParts]; [by apply IH|].
  destruct (Js.truthy (Js.join (String "009" "") pathParts)) eqn:Hpath; simpl;
    [|by apply IH].
  assert (Hres' : Forall statusLine
            (results ++ [Js.join (String "009" "") pathParts +:+ ": "
                           +:+ formatFileStatus status])).
  { apply Forall_app. split; [done|]. apply Forall_singleton.
    by exists (Js.join (String "009" "") pathParts), status. }
  destruct (_ <=? _); [done|by apply IH].
Qed.

Lemma fallbackFileChanges_lines (git : Git) (sha : string) (maxLines : Z)
  (listing : list string) :
  fallbackFileChanges git sha maxLines = Ok listing → Forall statusLine listing.
Proof.
  unfold fallbackFileChanges, obind.
  destruct (runGit _ _ _) as [output|]; [|done].
  destruct (negb (Js.truthy output)); intros [= <-]; [done|].
  by apply fallbackLoop_lines.
Qed.

(** C5, amended. Once the message and the file statistics of a commit
    have been read, [buildCommitData] makes a record of it whatever the
    diff does. When the diff of the source files cannot be read from
    git, it logs a warning and takes as diff lines one line [path:
    source change (diff omitted)] for each source path, up to the cap;
    this is not a name-status listing. When the diff is read and yields
    no line, it takes the name-status listing, whose lines are [path:
    status]; if that listing cannot be read either, it falls back to the
    same [source change] lines and warning. *)
Theorem buildCommit_degrades (git : Git) (maxDiffLines : Z) (extensions : gset string)
  (sha logOutput : string) (fileStats : list FileStat) :
  runGit git ["log"; "-1"; "--pretty=format:%s%n%n%b"; sha] defaults = Ok logOutput →
  getFileStats git sha extensions = Ok fileStats →
  let sourcePaths := sourcePathsOf fileStats in
  let summary := map summarizeSource (Js.aslice sourcePaths 0 maxDiffLines) in
  let allowed := Some (list_to_set sourcePaths) in
  let made := recordOf sha logOutput fileStats maxDiffLines in
  (∃ content log,
     buildCommit git maxDiffLines extensions sha = (Ok (made content), log))
  ∧ (∀ err, sourcePaths ≠ [] →
       git (diffArgs sha) (Some DIFF_BUFFER) = inr err →
       buildCommit git maxDiffLines extensions sha
       = (Ok (made summary), [diffWarning sha (gitError (diffArgs sha) err)]))
  ∧ (∀ diff listing, sourcePaths ≠ [] →
       git (diffArgs sha) (Some DIFF_BUFFER) = inl diff →
       collected diff maxDiffLines allowed = [] →
       fallbackFileChanges git sha maxDiffLines = Ok listing →
       buildCommit git maxDiffLines extensions sha = (Ok (made listing), [])
       ∧ Forall statusLine listing)
  ∧ (∀ diff error, sourcePaths ≠ [] →
       git (diffArgs sha) (Some DIFF_BUFFER) = inl diff →
       collected diff maxDiffLines allowed = [] →
       fallbackFileChanges git sha maxDiffLines = Threw error →
       buildCommit git maxDiffLines extensions sha
       = (Ok (made summary), [diffWarning sha error])).
Proof.
  intros Hlog Hstats. cbv zeta.
  pose proof (readDiffLines_cases git sha maxDiffLines (sourcePathsOf fileStats))
    as Hcases.
  cbv zeta in Hcases.
  split; [|split; [|split]].
  - destruct (readDiffLines_total git sha maxDiffLines (sourcePathsOf fileStats))
      as (content & log & Hread).
    exists content, log. by apply buildCommit_record.
  - intros err Hne Herr. apply buildCommit_record; [done..|].
    rewrite Hcases, Herr. by destruct (sourcePathsOf fileStats).
  - intros diff listing Hne Hdiff Hnone Hlist. split.
    + apply buildCommit_record; [done..|].
      rewrite Hcases, Hdiff, Hnone, Hlist. by destruct (sourcePathsOf fileStats).
    + by eapply fallbackFileChanges_lines.
  - intros diff error Hne Hdiff Hnone Hlist. apply buildCommit_record; [done..|].
    rewrite Hcases, Hdiff, Hnone, Hlist. by destruct (sourcePathsOf fileStats).
Qed.

(** C5, as stated, fails: when [git show] of the diff fails, the record
    is made, with a warning, but its diff lines are [source change]
    summaries of the source paths followed by the summaries of the other
    files; none is a name-status line, although the name-status listing
    of the commit could be read. *)
Lemma buildCommit_tool_error_summary :
  brokenDiffGit (diffArgs "aaa1234567") (Some DIFF_BUFFER) = inr sampleFailure
  ∧ buildCommit brokenDiffGit 10 DEFAULT_SOURCE_EXTENSIONS "aaa1234567"
    = (Ok {| sha := "aaa1234567"; message := "feat: x";
             diffLines :=
               [ "src/a.ts: source change (diff omitted)";
                 "new/b.TS: source change (diff omitted)";
                 "img.png: binary change (diff omitted)";
                 "README.md: non-source change (diff omitted)" ] |},
       [diffWarning "aaa1234567" (gitError (diffArgs "aaa1234567") sampleFailure)])
  ∧ existsb nameStatusLine
      [ "src/a.ts: source change (diff omitted)";
        "new/b.TS: source change (diff omitted)";
        "img.png: binary change (diff omitted)";
        "README.md: non-source change (diff omitted)" ] = false
  ∧ fallbackFileChanges brokenDiffGit "aaa1234567" 10
    = Ok ["src/a.ts: modified"; Js.join TAB ["x"; "y"] +:+ ": renamed"]
  ∧ forallb nameStatusLine ["src/a.ts: modified"; Js.join TAB ["x"; "y"] +:+ ": renamed"]
    = true.
Proof. repeat split; by vm_compute. Qed.

(** The premises are met by [brokenDiffGit], whose diff cannot be read:
    the record holds the [source change] summaries and the warning is
    logged. *)
Lemma buildCommit_degrades_witness :
  runGit brokenDiffGit ["log"; "-1"; "--pretty=format:%s%n%n%b"; "aaa1234567"] defaults
  = Ok "feat: x"
  ∧ (∃ fileStats,
       getFileStats brokenDiffGit "aaa1234567" DEFAULT_SOURCE_EXTENSIONS = Ok fileStats
       ∧ buildCommit brokenDiffGit 10 DEFAULT_SOURCE_EXTENSIONS "aaa1234567"
         = (Ok (recordOf "aaa1234567" "feat: x" fileStats 10
                  (map summarizeSource (Js.aslice (sourcePathsOf fileStats) 0 10))),
            [diffWarning "aaa1234567"
               (gitError (diffArgs "aaa1234567") sampleFailure)])).
Proof.
  assert (Hlog : runGit brokenDiffGit
            ["log"; "-1"; "--pretty=format:%s%n%n%b"; "aaa1234567"] defaults
            = Ok "feat: x") by (by vm_compute).
  split; [exact Hlog|].
  eexists. split; [by vm_compute|].
  refine (proj1 (proj2 (buildCommit_degrades brokenDiffGit 10 DEFAULT_SOURCE_EXTENSIONS
                          "aaa1234567" "feat: x" _ Hlog _)) sampleFailure _ _);
    by vm_compute.
Defined.

(** ** The cap on the diff lines of a record *)

Lemma emap_inv {A B} (f : A → Eff B) (xs : list A) (ys : list B) (log : list LogEntry) :
  emap f xs = (Ok ys, log) →
  Forall2 (λ x y, ∃ l, f x = (Ok y, l)) xs ys.
Proof.
  induction xs as [|x xs IH] in ys, log |- *; simpl.
  - intros [= <- _]. constructor.
  - unfold ebind at 1. destruct (f x) as [[y|e] l1] eqn:Hfx; [|done].
    unfold ebind at 1. destruct (emap f xs) as [[ys'|e] l2] eqn:Hrest; [|done].
    simpl. intros [= <- _]. constructor; [by exists l1|by eapply IH].
Qed.

Lemma buildCommit_inv (git : Git) (maxDiffLines : Z) (extensions : gset string)
  (sha : string) (record : CommitData) (log : list LogEntry) :
  buildCommit git maxDiffLines extensions sha = (Ok record, log) →
  ∃ logOutput fileStats content,
    getFileStats git sha extensions = Ok fileStats
    ∧ readDiffLines git sha maxDiffLines (sourcePathsOf fileStats) = (Ok content, log)
    ∧ record = recordOf sha logOutput fileStats maxDiffLines content.
Proof.
  intros Hbuild.
  destruct (runGit git ["log"; "-1"; "--pretty=format:%s%n%n%b"; sha] defaults)
    as [logOutput|e] eqn:Hlog; [|by unfold buildCommit in Hbuild; rewrite Hlog in Hbuild].
  destruct (getFileStats git sha extensions) as [fileStats|e] eqn:Hstats;
    [|by unfold buildCommit in Hbuild; rewrite Hlog, Hstats in Hbuild].
  destruct (readDiffLines_total git sha maxDiffLines (sourcePathsOf fileStats))
    as (content & log' & Hread).
  rewrite (buildCommit_record _ _ _ _ _ _ _ _ Hlog Hstats Hread) in Hbuild.
  injection Hbuild as <- <-. by exists logOutput, fileStats, content.
Qed.

(** C7. Each record [buildCommitData] produces holds at most
    [maxDiffLines] diff lines. They are the first [maxDiffLines] lines
    of the lines read from the diff followed by the summaries of the
    files that are not source files: the summaries are appended before
    the cap is applied, so they are the first to go. *)
Theorem buildCommitData_caps (git : Git) (shas : list string) (maxDiffLines : Z)
  (extensions : gset string) (records : list CommitData) (log : list LogEntry) :
  0 <= maxDiffLines →
  buildCommitData git shas maxDiffLines extensions = (Ok records, log) →
  Forall2 (λ commit record,
    sha record = commit
    ∧ Z.of_nat (length (diffLines record)) <= maxDiffLines
    ∧ ∃ fileStats content log',
        getFileStats git commit extensions = Ok fileStats
        ∧ readDiffLines git commit maxDiffLines (sourcePathsOf fileStats)
          = (Ok content, log')
        ∧ diffLines record
          = take (Z.to_nat maxDiffLines) content
            ++ take (Z.to_nat maxDiffLines - length content)
                 (nonSourceEntriesOf fileStats))
    shas records.
Proof.
  intros Hcap Hbuild. apply emap_inv in Hbuild.
  eapply Forall2_impl; [exact Hbuild|]. simpl.
  intros commit record [l Hone].
  apply buildCommit_inv in Hone as (logOutput & fileStats & content & Hstats & Hread & ->).
  simpl. rewrite aslice_take by done. split; [done|]. split.
  - rewrite length_take. lia.
  - exists fileStats, content, l. by rewrite take_app.
Qed.

(** The premises are met by [sampleGit] with a cap of three: two diff
    lines and the first summary are kept. *)
Lemma buildCommitData_caps_witness :
  buildCommitData sampleGit ["aaa1234567"] 3 DEFAULT_SOURCE_EXTENSIONS
  = (Ok [ {| sha := "aaa1234567"; message := "feat: x";
             diffLines := ["src/a.ts: -old"; "src/a.ts: +new";
                           "img.png: binary change (diff omitted)"] |} ], [])
  ∧ Forall (λ record, Z.of_nat (length (diffLines record)) <= 3)
      [ {| sha := "aaa1234567"; message := "feat: x";
           diffLines := ["src/a.ts: -old"; "src/a.ts: +new";
                         "img.png: binary change (diff omitted)"] |} ].
Proof.
  assert (Hbuild : buildCommitData sampleGit ["aaa1234567"] 3 DEFAULT_SOURCE_EXTENSIONS
    = (Ok [ {| sha := "aaa1234567"; message := "feat: x";
               diffLines := ["src/a.ts: -old"; "src/a.ts: +new";
                             "img.png: binary change (diff omitted)"] |} ], []))
    by (by vm_compute).
  split; [exact Hbuild|].
  assert (Hcap : 0 <= 3) by lia.
  pose proof (buildCommitData_caps sampleGit _ 3 _ _ _ Hcap Hbuild) as Hall.
  refine (Forall2_Forall_r _ _ _ _ Hall _).
  apply Forall_singleton. intros record (_ & Hlen & _). exact Hlen.
Defined.

(** ** The truncation of diff lines *)

Lemma trimmedLine_long (line : string) :
  MAX_LINE_LENGTH < Js.len line →
  trimmedLine line = Js.slice line 0 (MAX_LINE_LENGTH - 3) +:+ "..."
  ∧ Js.len (trimmedLine line) = MAX_LINE_LENGTH.
Proof.
  intros Hlong. unfold trimmedLine. rewrite (proj2 (Z.ltb_lt _ _) Hlong).
  split; [done|]. rewrite len_append, len_slice_prefix; unfold MAX_LINE_LENGTH in *.
  - done.
  - lia.
Qed.

Lemma trimmedLine_short (line : string) :
  Js.len line <= MAX_LINE_LENGTH → trimmedLine line = line.
Proof. intros Hshort. unfold trimmedLine. by rewrite (proj2 (Z.ltb_ge _ _) Hshort). Qed.

Lemma startsWith_cons (c a : ascii) (rest p : string) :
  Js.startsWith (String c rest) (String a p)
  = if ascii_dec a c then Js.startsWith rest p else false.
Proof. done. Qed.

Lemma startsWith_shorter (s p q : string) :
  Js.startsWith s (p +:+ q) = true → Js.startsWith s p = true.
Proof.
  unfold Js.startsWith. induction p as [|a p IH] in s |- *; [by destruct s|].
  destruct s as [|c rest]; [done|].
  change (String a p +:+ q) with (String a (p +:+ q)).
  fold (Js.startsWith (String c rest) (String a (p +:+ q))).
  fold (Js.startsWith (String c rest) (String a p)).
  rewrite !startsWith_cons. destruct (ascii_dec a c); [apply IH|done].
Qed.

Lemma contentLine_first (line : string) :
  contentLine line = true →
  ∃ c rest, line = String c rest ∧ (c = "+"%char ∨ c = "-"%char).
Proof.
  destruct line as [|c rest]; [done|]. intros Hcontent. exists c, rest.
  split; [done|]. unfold contentLine in Hcontent.
  apply andb_true_iff in Hcontent as [Hsign _].
  rewrite !startsWith_cons in Hsign.
  destruct (ascii_dec "+" c) as [<-|_]; [by left|].
  destruct (ascii_dec "-" c) as [<-|_]; [by right|done].
Qed.

(** One pass of the loop over a content line of an included file. *)
Lemma extractStep_content (maxLines : Z) (allowedPaths : option (gset string))
  (st : Extract) (rawLine : string) :
  includeFile st = true → contentLine (Js.stripFinalCR rawLine) = true →
  let st' := pushed st (entryFor (currentFile st)
                          (trimmedLine (Js.stripFinalCR rawLine))) in
  extractStep maxLines allowedPaths st rawLine
  = if maxLines <=? Z.of_nat (length (results st')) then Break st' else Continue st'.
Proof.
  intros Hinc Hcontent. unfold extractStep. cbv zeta.
  destruct (contentLine_first _ Hcontent) as (c & rest & Hline & Hc).
  rewrite Hline in Hcontent |- *. rewrite Hinc.
  unfold contentLine in Hcontent. apply andb_true_iff in Hcontent as [Hsign Hnot].
  apply negb_true_iff in Hnot.
  assert (Hhead : Js.startsWith (String c rest) "diff --git " = false
                  ∧ Js.startsWith (String c rest) "@@" = false
                  ∧ Js.startsWith (String c rest) "\ No newline" = false
                  ∧ Js.startsWith (String c rest) "Binary files " = false)
    by (by destruct Hc as [-> | ->]).
  destruct Hhead as (-> & -> & -> & ->).
  assert (Hfile : Js.startsWith (String c rest) "+++ " || Js.startsWith (String c rest) "--- "
                  = false).
  { apply orb_false_iff in Hnot as [Hplus Hminus]. apply orb_false_iff. split.
    - destruct (Js.startsWith (String c rest) "+++ ") eqn:Hlong; [|done].
      by rewrite (startsWith_shorter _ "+++" " " Hlong) in Hplus.
    - destruct (Js.startsWith (String c rest) "--- ") eqn:Hlong; [|done].
      by rewrite (startsWith_shorter _ "---" " " Hlong) in Hminus. }
  rewrite Hfile, Hsign, Hnot. unfold pushed. rewrite Hinc. simpl. done.
Qed.

Lemma extractStep_entries (all : list string) (maxLines : Z)
  (allowedPaths : option (gset string)) (st : Extract) (rawLine : string) :
  Js.stripFinalCR rawLine ∈ all →
  Forall (storedEntry all) (results st) →
  match extractStep maxLines allowedPaths st rawLine with
  | Continue st' | Break st' => Forall (storedEntry all) (results st')
  end.
Proof.
  intros Hin Hres. unfold extractStep. cbv zeta.
  set (line := Js.stripFinalCR rawLine) in *.
  destruct (Js.startsWith line "diff --git "); [done|].
  destruct (negb (includeFile st)); [done|].
  destruct (_ || _ || _ || _); [done|].
  destruct (Js.startsWith line "Binary files ") eqn:Hbin.
  { assert (Hres' : Forall (storedEntry all)
                      (results st ++ [entryFor (currentFile st) line])).
    { apply Forall_app. split; [done|]. apply Forall_singleton.
      by eapply storedBinary. }
    by destruct (_ <=? _). }
  destruct (Js.startsWith line "+" || Js.startsWith line "-") eqn:Hsign.
  - destruct (Js.startsWith line "+++" || Js.startsWith line "---") eqn:Hfile; [done|].
    assert (Hres' : Forall (storedEntry all)
                      (results st ++ [entryFor (currentFile st) (trimmedLine line)])).
    { apply Forall_app. split; [done|]. apply Forall_singleton.
      eapply storedContent; [done| |done].
      unfold contentLine. by rewrite Hsign, Hfile. }
    by destruct (_ <=? _).
  - by destruct (_ <=? _).
Qed.

Lemma extractLoop_entries (all : list string) (maxLines : Z)
  (allowedPaths : option (gset string)) (lines : list string) (st : Extract) :
  Forall (λ rawLine, Js.stripFinalCR rawLine ∈ all) lines →
  Forall (storedEntry all) (results st) →
  Forall (storedEntry all) (results (extractLoop maxLines allowedPaths lines st)).
Proof.
  induction lines as [|rawLine lines IH] in st |- *; intros Hlines Hres; simpl; [done|].
  apply Forall_cons in Hlines as [Hin Hlines].
  pose proof (extractStep_entries all maxLines allowedPaths st rawLine Hin Hres) as Hstep.
  destruct (extractStep _ _ _ _) as [st'|st']; [by apply IH|done].
Qed.

(** C2, as stated, fails: the line stored for a content line of 500
    code units under the header of [f.ts] is the path, a colon and a
    space, then the 297 first code units and the ellipsis: 306 code
    units, not 300. *)
Lemma extractDiffLines_stores_path_prefix :
  Js.len longLine = 500
  ∧ extractDiffLines sampleGit headedDiff 10 "aaa" None
    = Ok ["f.ts: " +:+ Js.slice longLine 0 297 +:+ "..."]
  ∧ Js.len ("f.ts: " +:+ Js.slice longLine 0 297 +:+ "...") = 306
  ∧ Js.len ("f.ts: " +:+ Js.slice longLine 0 297 +:+ "...") ≠ MAX_LINE_LENGTH.
Proof.
  split; [by vm_compute|]. split; [by vm_compute|]. split; [by vm_compute|].
  vm_compute. discriminate.
Qed.

(** C2, amended. A content line longer than 300 code units is truncated
    to its 297 first code units followed by three dots, 300 code units
    in all, and a content line of at most 300 code units is kept as it
    is. What [extractDiffLines] stores for a content line of an included
    file is that text, after the path of the current file, a colon and a
    space when a file header has been seen: the stored entry is longer
    than the text by the length of that prefix. Every entry collected
    from a diff is such an entry, or a [Binary files] line with the same
    prefix. *)
Theorem extractDiffLines_truncation :
  (∀ line, MAX_LINE_LENGTH < Js.len line →
     trimmedLine line = Js.slice line 0 (MAX_LINE_LENGTH - 3) +:+ "..."
     ∧ Js.len (trimmedLine line) = MAX_LINE_LENGTH)
  ∧ (∀ line, Js.len line <= MAX_LINE_LENGTH → trimmedLine line = line)
  ∧ (∀ maxLines allowedPaths st rawLine,
       includeFile st = true → contentLine (Js.stripFinalCR rawLine) = true →
       let st' := pushed st (entryFor (currentFile st)
                               (trimmedLine (Js.stripFinalCR rawLine))) in
       extractStep maxLines allowedPaths st rawLine
       = if maxLines <=? Z.of_nat (length (results st'))
         then Break st' else Continue st')
  ∧ (∀ git diff maxLines sha allowedPaths,
       collected diff maxLines allowedPaths ≠ [] →
       extractDiffLines git diff maxLines sha allowedPaths
       = Ok (collected diff maxLines allowedPaths)
       ∧ Forall (storedEntry (map Js.stripFinalCR (Js.split diff LF)))
           (collected diff maxLines allowedPaths)).
Proof.
  split; [exact trimmedLine_long|]. split; [exact trimmedLine_short|].
  split; [exact extractStep_content|].
  intros git diff maxLines sha allowedPaths Hne. split.
  - unfold extractDiffLines. fold LF. fold (collected diff maxLines allowedPaths).
    by destruct (collected diff maxLines allowedPaths).
  - apply extractLoop_entries; [|done].
    apply Forall_forall. intros rawLine Hin. by apply list_elem_of_fmap_2.
Qed.

(** At [headedDiff] the line collected is what [extractDiffLines]
    returns. *)
Lemma extractDiffLines_truncation_witness :
  collected headedDiff 10 None ≠ []
  ∧ extractDiffLines sampleGit headedDiff 10 "aaa" None
    = Ok (collected headedDiff 10 None).
Proof.
  assert (Hne : collected headedDiff 10 None ≠ []) by (vm_compute; discriminate).
  split; [exact Hne|].
  exact (proj1 (proj2 (proj2 (proj2 extractDiffLines_truncation))
                 sampleGit headedDiff 10 "aaa" None Hne)).
Defined.

(** ** The prompt is a function of the contents of its arguments *)

Lemma store_bind_ok {A B} (m : Store.M A) (k : A → Store.M B) (w w' : Store.World) (a : A) :
  m w = (Ok a, w') → Store.bind m k w = k a w'.
Proof. intros H. unfold Store.bind. by rewrite H. Qed.

Lemma store_itemsOf {A} (kind : Store.Object → option (list A)) (array : Store.Ref)
  (items : list A) (w : Store.World) :
  Store.heap w !! array ≫= kind = Some items →
  Store.itemsOf kind array w = (Ok items, w).
Proof. intros H. unfold Store.itemsOf. by rewrite H. Qed.

Lemma store_lengthOf {A} (kind : Store.Object → option (list A)) (array : Store.Ref)
  (items : list A) (w : Store.World) :
  Store.heap w !! array ≫= kind = Some items →
  Store.lengthOf kind array w = (Ok (Z.of_nat (length items)), w).
Proof.
  intros H. unfold Store.lengthOf.
  by rewrite (store_bind_ok _ _ _ _ _ (store_itemsOf kind array items w H)).
Qed.

(** The iterations of [map] over an array whose callbacks leave the
    world as it is: the results of the callbacks, in the order of the
    array, and the same world. *)
Lemma store_mapFrom {A} (kind : Store.Object → option (list A)) (array : Store.Ref)
  (callback : A → Store.M string) (items : list A) (texts : list string)
  (w : Store.World) (index count : nat) :
  Store.heap w !! array ≫= kind = Some items →
  Forall2 (λ item text, callback item w = (Ok text, w)) items texts →
  (index + count)%nat = length items →
  Store.mapFrom kind array callback index count w = (Ok (drop index texts), w).
Proof.
  intros Hitems Hall.
  pose proof (Forall2_length _ _ _ Hall) as Hlen.
  induction count as [|count IH] in index |- *; intros Hcount; simpl.
  - rewrite drop_ge by lia. done.
  - rewrite (store_bind_ok _ _ _ _ _ (store_itemsOf kind array items w Hitems)).
    destruct (lookup_lt_is_Some_2 items index) as [item Hitem]; [lia|].
    rewrite Hitem.
    destruct (Forall2_lookup_l _ _ _ _ _ Hall Hitem) as (text & Htext & Hcall).
    rewrite (store_bind_ok _ _ _ _ _ Hcall).
    rewrite (store_bind_ok _ _ _ _ _ (IH (S index) ltac:(lia))).
    unfold Store.ret. by rewrite (drop_S _ _ _ Htext).
Qed.

Lemma store_mapItems {A} (kind : Store.Object → option (list A)) (array : Store.Ref)
  (callback : A → Store.M string) (items : list A) (texts : list string)
  (w : Store.World) :
  Store.heap w !! array ≫= kind = Some items →
  Forall2 (λ item text, callback item w = (Ok text, w)) items texts →
  Store.mapItems kind array callback w = (Ok texts, w).
Proof.
  intros Hitems Hall. unfold Store.mapItems.
  rewrite (store_bind_ok _ _ _ _ _ (store_itemsOf kind array items w Hitems)).
  by rewrite (store_mapFrom kind array callback items texts w 0 (length items)
                Hitems Hall eq_refl).
Qed.

(** On a reference that holds a record, [formatCommitBlock] returns the
    block of the contents and leaves the world as it is. *)
Lemma store_formatCommitBlock (w : Store.World) (commit : Store.Ref) (c : CommitData) :
  recordAt w commit = Some c →
  Store.formatCommitBlock commit w = (Ok (formatCommitBlock c), w).
Proof.
  unfold recordAt. intros Hrecord.
  destruct (Store.heap w !! commit) as [[|s m lines|]|] eqn:Hcommit; try done.
  destruct (Store.heap w !! lines) as [[items| |]|] eqn:Hlines; try done.
  injection Hrecord as <-.
  assert (Hfield : ∀ A (get : string → string → Store.Ref → A),
            Store.field get commit w = (Ok (get s m lines), w)).
  { intros A get. unfold Store.field. by rewrite Hcommit. }
  assert (Hitems : Store.heap w !! lines ≫= Store.asLines = Some items)
    by (by rewrite Hlines).
  unfold Store.formatCommitBlock, Store.diffLinesOf, Store.shaOf, Store.messageOf.
  rewrite (store_bind_ok _ _ _ _ _ (Hfield _ _)).
  rewrite (store_bind_ok _ _ _ _ _ (store_lengthOf _ _ _ _ Hitems)).
  unfold formatCommitBlock. cbn [diffLines sha message].
  destruct items as [|line items].
  - simpl (Z.of_nat (length []) =? 0). cbv iota.
    rewrite (store_bind_ok _ _ w w (map (λ line, "- " +:+ line) [NO_DIFF]));
      [|done].
    rewrite (store_bind_ok _ _ _ _ _ (Hfield _ _)).
    by rewrite (store_bind_ok _ _ _ _ _ (Hfield _ _)).
  - replace (Z.of_nat (length (line :: items)) =? 0) with false
      by (symmetry; apply Z.eqb_neq; simpl; lia).
    rewrite (store_bind_ok _ _ w w (map (λ line, "- " +:+ line) (line :: items))).
    + rewrite (store_bind_ok _ _ _ _ _ (Hfield _ _)).
      by rewrite (store_bind_ok _ _ _ _ _ (Hfield _ _)).
    + rewrite (store_bind_ok _ _ _ _ _ (Hfield _ _)).
      apply (store_mapItems _ _ _ (line :: items)); [done|].
      apply Forall2_fmap_r, Forall_Forall2_diag, Forall_forall. done.
Qed.

(** On a reference that holds an array of records, [buildPrompt]
    returns the prompt of the contents and leaves the world as it is. *)
Lemma store_buildPrompt (currentTag previousTag githubNotes : string)
  (w : Store.World) (commits : Store.Ref) (records : list CommitData) :
  recordsAt w commits = Some records →
  Store.buildPrompt currentTag previousTag commits githubNotes w
  = (Ok (buildPrompt currentTag previousTag records githubNotes), w).
Proof.
  unfold recordsAt. intros Hrecords.
  destruct (Store.heap w !! commits) as [[| |items]|] eqn:Hcommits; try done.
  apply mapM_Some in Hrecords.
  pose proof (Forall2_length _ _ _ Hrecords) as Hlen.
  assert (Hitems : Store.heap w !! commits ≫= Store.asCommits = Some items)
    by (by rewrite Hcommits).
  unfold Store.buildPrompt.
  rewrite !(store_bind_ok _ _ _ _ _ (store_lengthOf _ _ _ _ Hitems)).
  unfold buildPrompt. rewrite Hlen.
  destruct records as [|c records].
  - simpl (Z.of_nat (length []) =? 0). cbv iota.
    by rewrite (store_bind_ok _ _ w w
                  [ "No commits were found between the previous and current tag.";
                    "Write a short placeholder release note that explains there are no code changes." ]).
  - replace (Z.of_nat (length (c :: records)) =? 0) with false
      by (symmetry; apply Z.eqb_neq; simpl; lia).
    rewrite (store_bind_ok _ _ w w (map formatCommitBlock (c :: records))); [done|].
    apply (store_mapItems _ _ _ items); [done|].
    apply Forall2_fmap_r. eapply Forall2_impl; [exact Hrecords|].
    intros commit record. apply store_formatCommitBlock.
Qed.

(** C8. [buildPrompt] draws on nothing but the two tags, the notes and
    the contents of the records behind [commits], and changes nothing:
    called in any two worlds, at whatever time, on arrays of records
    with the same contents, be they the same objects or not, it returns
    the same string, code unit for code unit, which is the prompt of
    those contents, and leaves each world as it found it; so two
    invocations in a row on the same arguments return that string
    twice. *)
Theorem buildPrompt_deterministic (currentTag previousTag githubNotes : string)
  (w w' : Store.World) (commits commits' : Store.Ref) (records : list CommitData) :
  recordsAt w commits = Some records →
  recordsAt w' commits' = Some records →
  let prompt := buildPrompt currentTag previousTag records githubNotes in
  Store.buildPrompt currentTag previousTag commits githubNotes w = (Ok prompt, w)
  ∧ Store.buildPrompt currentTag previousTag commits' githubNotes w' = (Ok prompt, w')
  ∧ twice (Store.buildPrompt currentTag previousTag commits githubNotes) w
    = (Ok (prompt, prompt), w).
Proof.
  intros Hrecords Hrecords' prompt.
  pose proof (store_buildPrompt currentTag previousTag githubNotes w commits records
                Hrecords) as Hcall.
  split; [exact Hcall|]. split; [by apply store_buildPrompt|].
  unfold twice. by rewrite !(store_bind_ok _ _ _ _ _ Hcall).
Qed.

(** The premises are met by the array of [callerWorld] and its copy in
    [otherWorld]: both calls return the prompt of [smallCommit]. *)
Lemma buildPrompt_deterministic_witness :
  (recordsAt callerWorld 1%positive = Some [smallCommit]
   ∧ recordsAt otherWorld 8%positive = Some [smallCommit])
  ∧ Store.buildPrompt "v1.1.0" "v1.0.0" 1%positive "notes" callerWorld
    = (Ok (buildPrompt "v1.1.0" "v1.0.0" [smallCommit] "notes"), callerWorld)
  ∧ Store.buildPrompt "v1.1.0" "v1.0.0" 8%positive "notes" otherWorld
    = (Ok (buildPrompt "v1.1.0" "v1.0.0" [smallCommit] "notes"), otherWorld)
  ∧ twice (Store.buildPrompt "v1.1.0" "v1.0.0" 1%positive "notes") callerWorld
    = (Ok (buildPrompt "v1.1.0" "v1.0.0" [smallCommit] "notes",
           buildPrompt "v1.1.0" "v1.0.0" [smallCommit] "notes"), callerWorld).
Proof.
  assert (Hcaller : recordsAt callerWorld 1%positive = Some [smallCommit])
    by (by vm_compute).
  assert (Hother : recordsAt otherWorld 8%positive = Some [smallCommit])
    by (by vm_compute).
  split; [by split|].
  exact (buildPrompt_deterministic "v1.1.0" "v1.0.0" "notes" callerWorld otherWorld
           1%positive 8%positive [smallCommit] Hcaller Hother).
Defined.

(** ** An empty answer of the summarizer *)

Lemma generateResponseText_answer (client : Client)
  (model input instructions label : string) :
  generateResponseText client model input instructions label
  = (match answer client model input instructions with
     | Ok "" => Threw (emptyResponseError label)
     | other => other
     end,
     [Submitted model input instructions]).
Proof.
  unfold generateResponseText, answer, ebind, logged. simpl.
  destruct (client model input instructions) as [response|error]; [|done].
  by destruct (Js.trim (extractResponseText response)).
Qed.

(** The batch stages up to the first empty answer: each request is
    submitted once, in order, and the loop stops at the empty answer
    with the error that names that stage. *)
Lemma stageLoop_empty (client : Client) (model tag previousTag : string) (index : Z)
  (before : list (list CommitData)) (chunk : list CommitData)
  (after : list (list CommitData)) (summaries : list string) :
  Forall (λ c, ∃ text, stageAnswer client model tag previousTag c = Ok text ∧ text ≠ "")
    before →
  stageAnswer client model tag previousTag chunk = Ok "" →
  stageLoop client model tag previousTag index (before ++ chunk :: after) summaries
  = (Threw (emptyResponseError
              ("stage-" +:+ Js.ofInt (index + Z.of_nat (length before) + 1))),
     map (stageRequest model tag previousTag) (before ++ [chunk])).
Proof.
  intros Hbefore Hempty.
  induction Hbefore as [|c before (text & Htext & Hne) _ IH] in index, summaries |- *;
    simpl.
  - rewrite generateResponseText_answer.
    unfold stageAnswer in Hempty. rewrite Hempty. simpl.
    by rewrite Z.add_0_r.
  - rewrite generateResponseText_answer.
    unfold stageAnswer in Htext. rewrite Htext.
    destruct text as [|a text]; [done|]. unfold ebind at 1.
    rewrite IH. simpl.
    replace (index + 1 + Z.of_nat (length before) + 1)
      with (index + Z.pos (Pos.of_succ_nat (length before)) + 1) by lia.
    done.
Qed.

(** The batch stages of a run in which each is answered with text: each
    request is submitted once, in order, and the answers are kept in
    that order. *)
Lemma stageLoop_answered (client : Client) (model tag previousTag : string) (index : Z)
  (chunks : list (list CommitData)) (texts summaries : list string) :
  Forall2 (answered client model tag previousTag) chunks texts →
  stageLoop client model tag previousTag index chunks summaries
  = (Ok (summaries ++ texts), map (stageRequest model tag previousTag) chunks).
Proof.
  intros Hall.
  induction Hall as [|chunk text chunks texts [Htext Hne] _ IH] in index, summaries |- *;
    simpl.
  - by rewrite app_nil_r.
  - rewrite generateResponseText_answer.
    unfold stageAnswer in Htext. rewrite Htext.
    destruct text as [|a text]; [done|]. unfold ebind at 1.
    rewrite IH. simpl. by rewrite <- app_assoc.
Qed.

(** C9. When the text extracted from the answer of the summarizer is
    empty once trimmed, [generateResponseText] throws the error that
    names the label of the stage, after one submission. In [run] the
    error ends the summarization at whichever request it meets: with a
    full prompt within budget, the only submission is the one labelled
    [final]; in staged mode, when a batch stage fails, the batch stages
    before it have been submitted once each, the failing one once, and
    nothing is submitted after it; when every batch stage is answered
    and the final request is not, each batch stage and the final
    request have been submitted once, and the error names [final]. *)
Theorem empty_answer_is_fatal :
  (∀ client model input instructions label,
     answer client model input instructions = Ok "" →
     generateResponseText client model input instructions label
     = (Threw (emptyResponseError label), [Submitted model input instructions]))
  ∧ (∀ client model tag previousTag commits githubNotes maxStageChars,
       let fullPrompt := buildPrompt tag previousTag commits githubNotes in
       Js.len fullPrompt <= maxStageChars →
       answer client model fullPrompt finalInstructions = Ok "" →
       runSummarization client model tag previousTag commits githubNotes maxStageChars
       = (Threw (emptyResponseError "final"),
          [Submitted model fullPrompt finalInstructions]))
  ∧ (∀ client model tag previousTag commits githubNotes maxStageChars before chunk after,
       let fullPrompt := buildPrompt tag previousTag commits githubNotes in
       let planned := chunkCommits commits (Z.max 1000 (maxStageChars - 2000)) in
       maxStageChars < Js.len fullPrompt →
       planned.1 = before ++ chunk :: after →
       Forall (λ c, ∃ text, stageAnswer client model tag previousTag c = Ok text
                            ∧ text ≠ "") before →
       stageAnswer client model tag previousTag chunk = Ok "" →
       ∃ notice,
         runSummarization client model tag previousTag commits githubNotes maxStageChars
         = (Threw (emptyResponseError
                     ("stage-" +:+ Js.ofInt (Z.of_nat (length before) + 1))),
            planned.2 ++ [LogInfo notice]
              ++ map (stageRequest model tag previousTag) (before ++ [chunk])))
  ∧ (∀ client model tag previousTag commits githubNotes maxStageChars texts,
       let fullPrompt := buildPrompt tag previousTag commits githubNotes in
       let planned := chunkCommits commits (Z.max 1000 (maxStageChars - 2000)) in
       maxStageChars < Js.len fullPrompt →
       Forall2 (answered client model tag previousTag) planned.1 texts →
       answer client model (buildFinalPrompt tag previousTag texts githubNotes)
         finalInstructions = Ok "" →
       ∃ notice,
         runSummarization client model tag previousTag commits githubNotes maxStageChars
         = (Threw (emptyResponseError "final"),
            planned.2 ++ [LogInfo notice]
              ++ map (stageRequest model tag previousTag) planned.1
              ++ [finalRequest model tag previousTag texts githubNotes])).
Proof.
  split; [|split; [|split]].
  - intros client model input instructions label Hempty.
    by rewrite generateResponseText_answer, Hempty.
  - intros client model tag previousTag commits githubNotes maxStageChars fullPrompt
      Hfits Hempty.
    unfold runSummarization. fold fullPrompt.
    rewrite (proj2 (Z.leb_le _ _) Hfits).
    by rewrite generateResponseText_answer, Hempty.
  - intros client model tag previousTag commits githubNotes maxStageChars
      before chunk after fullPrompt planned Hover Hplan Hbefore Hempty.
    unfold runSummarization. fold fullPrompt.
    rewrite (proj2 (Z.leb_gt _ _) Hover). fold planned.
    eexists. unfold logged, ebind at 1. rewrite Hplan.
    unfold inform, ebind at 1. simpl fst. simpl snd. cbv iota beta.
    unfold ebind at 1.
    rewrite (stageLoop_empty client model tag previousTag 0 before chunk after []
               Hbefore Hempty).
    cbv iota beta. rewrite Z.add_0_l. reflexivity.
  - intros client model tag previousTag commits githubNotes maxStageChars texts
      fullPrompt planned Hover Hall Hempty.
    unfold runSummarization. fold fullPrompt.
    rewrite (proj2 (Z.leb_gt _ _) Hover). fold planned.
    eexists. unfold logged, ebind at 1.
    unfold inform, ebind at 1. simpl fst. simpl snd. cbv iota beta.
    unfold ebind at 1.
    rewrite (stageLoop_answered client model tag previousTag 0 planned.1 texts []
               Hall).
    cbv iota beta. rewrite generateResponseText_answer. simpl app at 1.
    rewrite Hempty. unfold finalRequest. reflexivity.
Qed.

(** The premises are met by [silentClient], at a lone request, at the
    only request of a run within budget and at the first batch stage of
    a staged run, and by [silentAtFinal] at the final request of a
    staged run. *)
Lemma empty_answer_is_fatal_witness :
  (answer silentClient "gpt" "prompt" stageInstructions = Ok ""
   ∧ generateResponseText silentClient "gpt" "prompt" stageInstructions "stage-1"
     = (Threw "Model response did not include text output (stage-1).",
        [Submitted "gpt" "prompt" stageInstructions]))
  ∧ (Js.len (buildPrompt "v1.1.0" "v1.0.0" [smallCommit] "") <= 400000
     ∧ runSummarization silentClient "gpt" "v1.1.0" "v1.0.0" [smallCommit] "" 400000
       = (Threw "Model response did not include text output (final).",
          [Submitted "gpt" (buildPrompt "v1.1.0" "v1.0.0" [smallCommit] "")
             finalInstructions]))
  ∧ (100 < Js.len (buildPrompt "v1.1.0" "v1.0.0" [smallCommit] "")
     ∧ ∃ notice,
         runSummarization silentClient "gpt" "v1.1.0" "v1.0.0" [smallCommit] "" 100
         = (Threw "Model response did not include text output (stage-1).",
            [] ++ [LogInfo notice]
              ++ map (stageRequest "gpt" "v1.1.0" "v1.0.0") ([] ++ [[smallCommit]])))
  ∧ ∃ notice,
      runSummarization silentAtFinal "gpt" "v1.1.0" "v1.0.0" [smallCommit] "" 100
      = (Threw "Model response did not include text output (final).",
         [] ++ [LogInfo notice]
           ++ map (stageRequest "gpt" "v1.1.0" "v1.0.0") [[smallCommit]]
           ++ [finalRequest "gpt" "v1.1.0" "v1.0.0" ["ok"] ""]).
Proof.
  assert (Hempty : answer silentClient "gpt" "prompt" stageInstructions = Ok "")
    by reflexivity.
  assert (Hfits : Js.len (buildPrompt "v1.1.0" "v1.0.0" [smallCommit] "") <= 400000)
    by (by vm_compute).
  assert (Hover : 100 < Js.len (buildPrompt "v1.1.0" "v1.0.0" [smallCommit] ""))
    by (by vm_compute).
  split; [split; [exact Hempty|]|split; [split; [exact Hfits|]|split; [split; [exact Hover|]|]]].
  - exact (proj1 empty_answer_is_fatal silentClient "gpt" "prompt" stageInstructions
             "stage-1" Hempty).
  - exact (proj1 (proj2 empty_answer_is_fatal) silentClient "gpt" "v1.1.0" "v1.0.0"
             [smallCommit] "" 400000 Hfits eq_refl).
  - exact (proj1 (proj2 (proj2 empty_answer_is_fatal)) silentClient "gpt" "v1.1.0"
             "v1.0.0" [smallCommit] "" 100 [] [smallCommit] [] Hover eq_refl
             (Forall_nil_2 _) eq_refl).
  - refine (proj2 (proj2 (proj2 empty_answer_is_fatal)) silentAtFinal "gpt" "v1.1.0"
              "v1.0.0" [smallCommit] "" 100 ["ok"] Hover _ eq_refl).
    change (chunkCommits [smallCommit] (Z.max 1000 (100 - 2000))).1
      with [[smallCommit]].
    constructor; [|constructor]. split; [reflexivity|discriminate].
Defined.


(** ** Scenarios of the specification, run on the model *)

(** An override that git does not know is refused by name. *)
Example override_not_found :
  resolvePreviousTag sampleGit "v1.0.0" "v9.9.9"
  = (Threw "Override previous tag v9.9.9 not found. Ensure tags are fetched.", []).
Proof. by vm_compute. Qed.

(** The oldest tag has no previous tag. *)
Example oldest_tag_has_no_previous :
  resolvePreviousTag sampleGit "v1.0.0" "" = (Ok "", [NO_PREVIOUS]).
Proof. by vm_compute. Qed.

(** A commit that changes a binary file yields one summary line. *)
Example binary_change_summary :
  buildCommitData binaryGit ["aaa1234567"] 120 DEFAULT_SOURCE_EXTENSIONS
  = (Ok [ {| sha := "aaa1234567"; message := "feat: x";
             diffLines := ["img.png: binary change (diff omitted)"] |} ], []).
Proof. by vm_compute. Qed.

(** A content line of 500 code units read before any file header is
    stored as its 297 first code units and three dots. *)
Example long_line_without_header :
  extractDiffLines sampleGit longLine 10 "aaa" None
  = Ok [Js.slice longLine 0 297 +:+ "..."]
  ∧ Js.len (Js.slice longLine 0 297 +:+ "...") = 300.
Proof. split; by vm_compute. Qed.

(** With a budget of 100 the floor of [wideCommit] is still over budget:
    its chunk overflows. *)
Example floor_over_budget :
  (chunkCommits [wideCommit] 100).1 = [[floorRecord wideCommit 100]]
  ∧ Js.len (formatCommitBlock (floorRecord wideCommit 100)) = 176.
Proof. split; by vm_compute. Qed.

(** * Further properties of the code *)

(** ** trimText *)

(** X1. For a limit that is not negative, [trimText] returns a text of
    [min (length text) maxLength] code units, and applying it again with
    the same limit changes nothing. *)
Theorem trimText_exact (text : string) (maxLength : Z) :
  0 <= maxLength →
  Js.len (trimText text maxLength) = Z.min (Js.len text) maxLength
  ∧ trimText (trimText text maxLength) maxLength = trimText text maxLength.
Proof.
  intros Hpos.
  assert (Hlen : Js.len (trimText text maxLength) = Z.min (Js.len text) maxLength).
  { unfold trimText.
    destruct (Z.leb_spec (Js.len text) maxLength) as [Hfit|Hover]; [lia|].
    destruct (Z.leb_spec maxLength 3) as [Hsmall|Hbig].
    - rewrite len_slice_prefix; lia.
    - rewrite len_append, len_slice_prefix by lia. closed_lens. lia. }
  split; [exact Hlen|]. apply trimText_fits. lia.
Qed.

Lemma trimText_exact_witness :
  0 <= 6 ∧ Js.len (trimText "abcdefghij" 6) = 6
  ∧ trimText (trimText "abcdefghij" 6) 6 = "abc...".
Proof.
  assert (H : 0 <= 6) by lia. split; [exact H|].
  destruct (trimText_exact "abcdefghij" 6 H) as [Hlen Hidem].
  split; [exact Hlen|]. rewrite Hidem. reflexivity.
Defined.

(** X2. For a negative limit [trimText] does not cut to the limit: it
    removes the last [-maxLength] code units of the text, and what is
    left can be longer than any limit. *)
Theorem trimText_negative (text : string) (maxLength : Z) :
  maxLength < 0 →
  trimText text maxLength = Js.slice text 0 maxLength
  ∧ Js.len (trimText text maxLength) = Z.max (Js.len text + maxLength) 0.
Proof.
  intros Hneg. pose proof (len_nonneg text) as Hn.
  assert (Heq : trimText text maxLength = Js.slice text 0 maxLength).
  { unfold trimText.
    rewrite (proj2 (Z.leb_gt _ _)) by lia.
    by rewrite (proj2 (Z.leb_le _ _)) by lia. }
  split; [exact Heq|]. rewrite Heq.
  unfold Js.slice, Js.relIndex, Js.len in *. rewrite length_substring.
  destruct (Z.ltb_spec 0 0) as [?|_]; [lia|].
  destruct (Z.ltb_spec maxLength 0) as [_|?]; lia.
Qed.

Lemma trimText_negative_witness :
  -2 < 0 ∧ trimText "abcdefghij" (-2) = "abcdefgh".
Proof.
  assert (H : -2 < 0) by lia. split; [exact H|].
  rewrite (proj1 (trimText_negative "abcdefghij" (-2) H)). reflexivity.
Defined.

(** ** The block of a commit and its diff lines *)

Lemma len_block (c : CommitData) :
  Js.len (formatCommitBlock c)
  = 90 + Js.len (Js.slice (sha c) 0 7) + Js.len (message c)
    + (match diffLines c with
       | [] => 29
       | lines => paddedLen 1 (map (λ line, "- " +:+ line) lines) - 1
       end).
Proof.
  unfold formatCommitBlock.
  rewrite len_join by done. cbn [paddedLen map].
  rewrite len_append.
  destruct (diffLines c) as [|l ls].
  - closed_lens. lia.
  - rewrite (len_join _ (map _ (l :: ls))) by done. closed_lens.
    cbn [paddedLen map]. lia.
Qed.

(** X3. What removing the last diff line does to the block of a record,
    as the loop of [truncateCommit] measures it: when other lines
    remain, the block loses the line, its dash and its line feed; when
    it was the only line, the placeholder of 27 code units takes its
    place, so the block grows if the line was shorter than that. *)
Theorem block_without_last_line (c : CommitData) (msg line : string)
  (lines : list string) :
  (lines ≠ [] →
   Js.len (reblock c msg (Js.pop (lines ++ [line])))
   = Js.len (reblock c msg (lines ++ [line])) - (Js.len line + 3))
  ∧ Js.len (reblock c msg (Js.pop [line]))
    = Js.len (reblock c msg [line]) + (27 - Js.len line).
Proof.
  unfold Js.pop, reblock. rewrite removelast_last. split.
  - intros Hne. rewrite !len_block. simpl.
    destruct lines as [|l ls]; [done|].
    change ((l :: ls) ++ [line]) with (l :: (ls ++ [line])).
    cbn iota. rewrite map_app, paddedLen_app. cbn [paddedLen map].
    rewrite !len_append. closed_lens. lia.
  - rewrite !len_block. simpl. rewrite len_append. closed_lens. lia.
Qed.

(** ** chunkCommits: where chunks are split, how many, what is logged *)

Lemma greedy_extend_last (maxChars : Z) (before : list (list CommitData))
  (c : CommitData) (chunk extra : list CommitData) :
  greedy maxChars (before ++ [c :: chunk]) →
  greedy maxChars (before ++ [(c :: chunk) ++ extra]).
Proof.
  induction before as [|a before IH]; [done|]. simpl.
  destruct before as [|b before'].
  - simpl. by intros [Hover _].
  - change ((b :: before') ++ ?x) with (b :: (before' ++ x)) in *.
    destruct b as [|cb b]; [done|]. intros [Hover Hrest]. split; [done|].
    by apply IH.
Qed.

Lemma greedy_open_next (maxChars : Z) (before : list (list CommitData))
  (chunk : list CommitData) (c : CommitData) :
  greedy maxChars (before ++ [chunk]) →
  maxChars < packedSize chunk + Js.len (formatCommitBlock c) + 2 →
  greedy maxChars ((before ++ [chunk]) ++ [[c]]).
Proof.
  intros Hgreedy Hover. induction before as [|a before IH]; [done|].
  simpl in *. destruct before as [|b before'].
  - simpl in *. destruct chunk as [|cc chunk]; [done|].
    destruct Hgreedy as [Ha _]. done.
  - change ((b :: before') ++ ?x) with (b :: (before' ++ x)) in *.
    destruct b as [|cb b]; [done|]. destruct Hgreedy as [Ha Hrest].
    split; [done|]. by apply IH.
Qed.

Lemma chunkStep_greedy (maxChars : Z) (st : Packing) (commit : CommitData) :
  PackInv maxChars st →
  (current st = [] → chunks st = []) →
  greedy maxChars (planned st) →
  let st' := (chunkStep maxChars st commit).1 in
  current st' ≠ [] ∧ greedy maxChars (planned st').
Proof.
  intros Hinv Hstart Hgreedy. cbv zeta. unfold chunkStep. rewrite lbind_fst.
  set (candidate := (candidateOf maxChars commit).1). simpl.
  unfold planned in Hgreedy.
  destruct (current st) as [|c0 cur] eqn:Hcur.
  - rewrite (bool_decide_eq_false_2 ([] ≠ [])) by (by intros H). simpl.
    unfold planned. simpl. rewrite Hcur, (Hstart eq_refl). simpl. done.
  - rewrite bool_decide_eq_true_2 by done. simpl.
    destruct (Z.ltb_spec maxChars
                (currentSize st + Js.len (formatCommitBlock candidate) + 2))
      as [Hover|Hfit]; simpl.
    + split; [done|]. unfold planned. simpl.
      apply greedy_open_next; [done|].
      rewrite (inv_size _ _ Hinv), Hcur in Hover. done.
    + rewrite Hcur. split; [done|]. unfold planned. simpl.
      change (c0 :: cur ++ [candidate]) with ((c0 :: cur) ++ [candidate]).
      by apply greedy_extend_last.
Qed.

Lemma lfold_greedy (maxChars : Z) (commits : list CommitData) (st : Packing) :
  PackInv maxChars st →
  (current st = [] → chunks st = []) →
  greedy maxChars (planned st) →
  greedy maxChars (planned (lfold (chunkStep maxChars) commits st).1).
Proof.
  induction commits as [|c commits IH] in st |- *; intros Hinv Hstart Hgreedy;
    simpl; [done|].
  rewrite lbind_fst.
  destruct (chunkStep_greedy maxChars st c Hinv Hstart Hgreedy) as [Hne Hg].
  apply IH; [by apply chunkStep_inv|done|done].
Qed.

(** X4. [chunkCommits] packs greedily: a chunk is closed only when the
    next record, with its separator, no longer fits the budget after
    what the chunk already holds, so no chunk could have taken the first
    record of the chunk after it. *)
Theorem chunkCommits_greedy (commits : list CommitData) (maxChars : Z) :
  greedy maxChars (chunkCommits commits maxChars).1.
Proof.
  unfold chunkCommits. rewrite lbind_fst. simpl.
  pose proof (lfold_greedy maxChars commits
                {| chunks := []; current := []; currentSize := 0 |}) as Hg.
  unfold planned in Hg at 2. simpl in Hg.
  specialize (Hg ltac:(split; simpl; [done|done|by left]) ltac:(done) I).
  unfold planned in Hg.
  destruct (current _) as [|c cur] eqn:Hcur.
  - by rewrite bool_decide_eq_false_2 by (by intros H).
  - by rewrite bool_decide_eq_true_2.
Qed.

Lemma candidateOf_log (maxChars : Z) (c : CommitData) :
  (candidateOf maxChars c).2
  = if decide (maxChars < Js.len (formatCommitBlock c)) then [truncationNotice c]
    else [].
Proof.
  unfold candidateOf.
  destruct (Z.ltb_spec maxChars (Js.len (formatCommitBlock c))) as [Hover|Hfit].
  - rewrite decide_True by done. by apply truncateCommit_notice.
  - by rewrite decide_False by lia.
Qed.

Lemma lfold_chunkStep_log (maxChars : Z) (commits : list CommitData) (st : Packing) :
  (lfold (chunkStep maxChars) commits st).2
  = map truncationNotice
      (filter (λ c, maxChars < Js.len (formatCommitBlock c)) commits).
Proof.
  induction commits as [|c commits IH] in st |- *; [done|].
  simpl. rewrite lbind_snd, IH. unfold chunkStep at 1.
  rewrite lbind_snd, candidateOf_log. simpl. rewrite app_nil_r.
  rewrite filter_cons. by destruct (decide _).
Qed.

(** X5. [chunkCommits] gives the logger one truncation notice for each
    record whose block is over budget, in the order of the records, and
    nothing else: a record that fits is never reported. *)
Theorem chunkCommits_log (commits : list CommitData) (maxChars : Z) :
  (chunkCommits commits maxChars).2
  = map truncationNotice
      (filter (λ c, maxChars < Js.len (formatCommitBlock c)) commits).
Proof.
  unfold chunkCommits. rewrite lbind_snd, lfold_chunkStep_log. simpl.
  by rewrite app_nil_r.
Qed.

Lemma length_concat_nonempty {A} (xss : list (list A)) :
  Forall (λ xs, xs ≠ []) xss → (length xss ≤ length (concat xss))%nat.
Proof.
  induction 1 as [|xs xss Hne _ IH]; simpl; [done|].
  rewrite length_app. destruct xs; [done|]. simpl. lia.
Qed.

(** X6. [chunkCommits] makes at most one chunk per record, and no chunk
    at all exactly when it is given no record. *)
Theorem chunkCommits_count (commits : list CommitData) (maxChars : Z) :
  (length (chunkCommits commits maxChars).1 ≤ length commits)%nat
  ∧ ((chunkCommits commits maxChars).1 = [] ↔ commits = []).
Proof.
  destruct (chunkCommits_chunks commits maxChars) as [Hall Hconcat].
  assert (Hne : Forall (λ chunk, chunk ≠ []) (chunkCommits commits maxChars).1).
  { eapply Forall_impl; [exact Hall|]. by intros chunk [H _]. }
  pose proof (length_concat_nonempty _ Hne) as Hlen.
  rewrite Hconcat, length_map in Hlen. split; [done|]. split.
  - intros Hnil. rewrite Hnil in Hconcat. simpl in Hconcat.
    by destruct commits.
  - intros ->. reflexivity.
Qed.

(** ** Budgets of the staged run *)

(** The premise of the corollary on budgets from 176 on is met by a
    budget of 200, where [wideCommit] is cut down to fit. *)
Lemma chunkCommits_within_budget_witness :
  176 <= 200
  ∧ Forall (λ chunk, chunkChars chunk <= 200) (chunkCommits [wideCommit] 200).1.
Proof.
  assert (H : 176 <= 200) by lia. split; [exact H|].
  exact (chunkCommits_within_budget [wideCommit] 200 H).
Defined.

Lemma buildPrompt_header (currentTag previousTag : string) (commits : list CommitData) :
  commits ≠ [] →
  buildPrompt currentTag previousTag commits ""
  = promptHeader currentTag previousTag (length commits)
      +:+ Js.join (String "010" (String "010" "")) (map formatCommitBlock commits).
Proof. intros Hne. unfold buildPrompt, promptHeader. by destruct commits. Qed.

Lemma len_promptHeader (currentTag previousTag : string) (count : nat) :
  Js.len (promptHeader currentTag previousTag count)
  = 44 + Js.len currentTag
    + (if Js.truthy previousTag then Js.len previousTag else 6)
    + Js.len (Js.ofInt (Z.of_nat count)).
Proof.
  unfold promptHeader. rewrite len_join by done. cbn [paddedLen].
  rewrite !len_append.
  destruct (Js.truthy previousTag); rewrite ?len_append; closed_lens; lia.
Qed.

(** X8. The prompt of a batch stage is the header (44 code units, the
    two tags and the digits of the commit count) followed by the chunk.
    [run] plans the chunks with a budget of [max 1000 (maxStageChars -
    2000)], so from a stage budget of 3000 on, the prompt of every batch
    stage is within [maxStageChars] whenever its header holds at most
    2000 code units. *)
Theorem stage_prompt_fits (currentTag previousTag : string)
  (commits chunk : list CommitData) (maxStageChars : Z) :
  3000 <= maxStageChars →
  chunk ∈ (chunkCommits commits (Z.max 1000 (maxStageChars - 2000))).1 →
  Js.len (promptHeader currentTag previousTag (length chunk)) <= 2000 →
  Js.len (buildSummaryPrompt currentTag previousTag chunk)
  = Js.len (promptHeader currentTag previousTag (length chunk)) + chunkChars chunk
  ∧ Js.len (buildSummaryPrompt currentTag previousTag chunk) <= maxStageChars.
Proof.
  intros Hstage Hin Hheader.
  set (budget := Z.max 1000 (maxStageChars - 2000)) in *.
  destruct (chunkCommits_chunks commits budget) as [Hall _].
  destruct (proj1 (Forall_forall _ _) Hall chunk Hin) as [Hne _].
  assert (Hfit : chunkChars chunk <= budget).
  { destruct (proj1 (Forall_forall _ _) (chunkCommits_sizes commits budget) chunk Hin)
      as [Hfit|(c & _ & _ & _ & Hover)]; [done|].
    pose proof (floorRecord_fits c budget). lia. }
  unfold buildSummaryPrompt. rewrite buildPrompt_header, len_append by done.
  fold (chunkChars chunk). split; [done|]. lia.
Qed.

Lemma stage_prompt_fits_witness :
  3000 <= 3000
  ∧ Js.len (buildSummaryPrompt "v1.1.0" "v1.0.0" [smallCommit]) <= 3000.
Proof.
  assert (H : 3000 <= 3000) by lia. split; [exact H|].
  refine (proj2 (stage_prompt_fits "v1.1.0" "v1.0.0" [smallCommit] [smallCommit]
                   3000 H _ _)).
  - vm_compute. apply list_elem_of_here.
  - by vm_compute.
Defined.

(** ** Trimming *)

Lemma trimEnd_cons (c : ascii) (s : string) :
  Js.trimEnd (String c s)
  = match Js.trimEnd s with
    | EmptyString => if Js.isSpace c then EmptyString else String c EmptyString
    | r => String c r
    end.
Proof. done. Qed.

Lemma trimEnd_idem (s : string) : Js.trimEnd (Js.trimEnd s) = Js.trimEnd s.
Proof.
  induction s as [|c s IH]; [done|]. rewrite trimEnd_cons.
  destruct (Js.trimEnd s) as [|d r] eqn:Hs.
  - destruct (Js.isSpace c) eqn:Hc; [done|]. rewrite trimEnd_cons. simpl.
    by rewrite Hc.
  - rewrite trimEnd_cons, IH. done.
Qed.

Lemma trimStart_noLeading (s : string) : noLeadingSpace (Js.trimStart s).
Proof.
  induction s as [|c s IH]; [done|]. simpl.
  by destruct (Js.isSpace c) eqn:Hc.
Qed.

Lemma trimStart_fixed (s : string) : noLeadingSpace s → Js.trimStart s = s.
Proof. destruct s as [|c s]; [done|]. simpl. by intros ->. Qed.

Lemma trimEnd_noLeading (s : string) :
  noLeadingSpace s → noLeadingSpace (Js.trimEnd s).
Proof.
  destruct s as [|c s]; [done|]. simpl. intros Hc.
  destruct (Js.trimEnd s); [by rewrite Hc|done].
Qed.

Lemma trim_noLeading (s : string) : noLeadingSpace (Js.trim s).
Proof. apply trimEnd_noLeading, trimStart_noLeading. Qed.

Lemma trim_idem (s : string) : Js.trim (Js.trim s) = Js.trim s.
Proof.
  unfold Js.trim at 1. rewrite trimStart_fixed by apply trim_noLeading.
  unfold Js.trim. apply trimEnd_idem.
Qed.

Lemma truthy_nonempty (s : string) : Js.truthy s = true ↔ s ≠ "".
Proof. by destruct s. Qed.

(** ** The submissions of a run *)

(** X9. A text returned by [generateResponseText] is never empty and has
    no white space at either end, and it cost exactly one submission. *)
Theorem generateResponseText_text (client : Client)
  (model input instructions label text : string) (log : list LogEntry) :
  generateResponseText client model input instructions label = (Ok text, log) →
  text ≠ "" ∧ Js.trim text = text ∧ log = [Submitted model input instructions].
Proof.
  rewrite generateResponseText_answer. unfold answer.
  destruct (client model input instructions) as [response|error]; [|done].
  destruct (Js.trim (extractResponseText response)) as [|c r] eqn:Htrim; [done|].
  intros [= <- <-]. split; [done|]. split; [|done].
  rewrite <- Htrim. apply trim_idem.
Qed.

Lemma generateResponseText_text_witness :
  generateResponseText (constantClient "  notes  ") "gpt" "prompt" finalInstructions
    "final"
  = (Ok "notes", [Submitted "gpt" "prompt" finalInstructions])
  ∧ Js.trim "notes" = "notes".
Proof.
  assert (H : generateResponseText (constantClient "  notes  ") "gpt" "prompt"
                finalInstructions "final"
              = (Ok "notes", [Submitted "gpt" "prompt" finalInstructions]))
    by reflexivity.
  split; [exact H|].
  exact (proj1 (proj2 (generateResponseText_text _ _ _ _ _ _ _ H))).
Defined.

(** X10. When every answer holds text, [run] submits, with a full prompt
    within the stage budget, that prompt alone, no record being
    truncated; otherwise one request for each planned chunk, in the
    order of the chunks, then one final request that holds the answers
    of the batch stages in that same order, and returns the final
    answer. *)
Theorem runSummarization_answers (client : Client) (model tag previousTag : string)
  (commits : list CommitData) (githubNotes : string) (maxStageChars : Z) :
  let fullPrompt := buildPrompt tag previousTag commits githubNotes in
  let planned := chunkCommits commits (Z.max 1000 (maxStageChars - 2000)) in
  (∀ text,
     Js.len fullPrompt <= maxStageChars →
     answer client model fullPrompt finalInstructions = Ok text → text ≠ "" →
     runSummarization client model tag previousTag commits githubNotes maxStageChars
     = (Ok text, [Submitted model fullPrompt finalInstructions]))
  ∧ (∀ texts final,
       maxStageChars < Js.len fullPrompt →
       Forall2 (answered client model tag previousTag) planned.1 texts →
       answer client model (buildFinalPrompt tag previousTag texts githubNotes)
         finalInstructions = Ok final →
       final ≠ "" →
       ∃ notice,
         runSummarization client model tag previousTag commits githubNotes
           maxStageChars
         = (Ok final,
            planned.2 ++ [LogInfo notice]
              ++ map (stageRequest model tag previousTag) planned.1
              ++ [finalRequest model tag previousTag texts githubNotes])).
Proof.
  intros fullPrompt planned. split.
  - intros text Hfits Htext Hne. unfold runSummarization. fold fullPrompt.
    rewrite (proj2 (Z.leb_le _ _) Hfits), generateResponseText_answer, Htext.
    by destruct text.
  - intros texts final Hover Hall Hfinal Hne.
    unfold runSummarization. fold fullPrompt.
    rewrite (proj2 (Z.leb_gt _ _) Hover). fold planned.
    eexists. unfold logged, ebind at 1.
    unfold inform, ebind at 1. simpl fst. simpl snd. cbv iota beta.
    unfold ebind at 1.
    rewrite (stageLoop_answered client model tag previousTag 0 planned.1 texts []
               Hall).
    cbv iota beta. rewrite generateResponseText_answer. simpl app at 1.
    rewrite Hfinal. destruct final as [|a final]; [done|].
    unfold finalRequest. reflexivity.
Qed.

(** One batch stage and the final request, both answered: staged mode
    with a stage budget of 100. *)
Lemma runSummarization_answers_witness :
  100 < Js.len (buildPrompt "v1.1.0" "v1.0.0" [smallCommit] "")
  ∧ ∃ notice,
      runSummarization (constantClient "ok") "gpt" "v1.1.0" "v1.0.0" [smallCommit] "" 100
      = (Ok "ok",
         [] ++ [LogInfo notice]
           ++ map (stageRequest "gpt" "v1.1.0" "v1.0.0") [[smallCommit]]
           ++ [finalRequest "gpt" "v1.1.0" "v1.0.0" ["ok"] ""]).
Proof.
  assert (Hover : 100 < Js.len (buildPrompt "v1.1.0" "v1.0.0" [smallCommit] ""))
    by (by vm_compute).
  split; [exact Hover|].
  refine (proj2 (runSummarization_answers (constantClient "ok") "gpt" "v1.1.0" "v1.0.0"
                   [smallCommit] "" 100) ["ok"] "ok" Hover _ _ _).
  - change (chunkCommits [smallCommit] (Z.max 1000 (100 - 2000))).1
      with [[smallCommit]].
    constructor; [|constructor]. split; [reflexivity|discriminate].
  - reflexivity.
  - discriminate.
Defined.

Lemma stageLoop_rejected (client : Client) (model tag previousTag : string) (index : Z)
  (before : list (list CommitData)) (texts : list string) (chunk : list CommitData)
  (after : list (list CommitData)) (summaries : list string) (error : string) :
  Forall2 (answered client model tag previousTag) before texts →
  stageAnswer client model tag previousTag chunk = Threw error →
  stageLoop client model tag previousTag index (before ++ chunk :: after) summaries
  = (Threw error, map (stageRequest model tag previousTag) (before ++ [chunk])).
Proof.
  intros Hbefore Hreject.
  induction Hbefore as [|c text before texts [Htext Hne] _ IH] in index, summaries |- *;
    simpl.
  - rewrite generateResponseText_answer.
    unfold stageAnswer in Hreject. by rewrite Hreject.
  - rewrite generateResponseText_answer.
    unfold stageAnswer in Htext. rewrite Htext.
    destruct text as [|a text]; [done|]. unfold ebind at 1.
    by rewrite IH.
Qed.

(** X11. A request the summarizer rejects ends the run with the error of
    the summarizer as it is, without the label of the stage: at the only
    request of a run within budget; at a batch stage, after which
    nothing more is submitted; and at the final request of a staged
    run. *)
Theorem runSummarization_rejection (client : Client) (model tag previousTag : string)
  (commits : list CommitData) (githubNotes : string) (maxStageChars : Z)
  (error : string) :
  let fullPrompt := buildPrompt tag previousTag commits githubNotes in
  let planned := chunkCommits commits (Z.max 1000 (maxStageChars - 2000)) in
  (Js.len fullPrompt <= maxStageChars →
   answer client model fullPrompt finalInstructions = Threw error →
   runSummarization client model tag previousTag commits githubNotes maxStageChars
   = (Threw error, [Submitted model fullPrompt finalInstructions]))
  ∧ (∀ before texts chunk after,
       maxStageChars < Js.len fullPrompt →
       planned.1 = before ++ chunk :: after →
       Forall2 (answered client model tag previousTag) before texts →
       stageAnswer client model tag previousTag chunk = Threw error →
       ∃ notice,
         runSummarization client model tag previousTag commits githubNotes
           maxStageChars
         = (Threw error,
            planned.2 ++ [LogInfo notice]
              ++ map (stageRequest model tag previousTag) (before ++ [chunk])))
  ∧ (∀ texts,
       maxStageChars < Js.len fullPrompt →
       Forall2 (answered client model tag previousTag) planned.1 texts →
       answer client model (buildFinalPrompt tag previousTag texts githubNotes)
         finalInstructions = Threw error →
       ∃ notice,
         runSummarization client model tag previousTag commits githubNotes
           maxStageChars
         = (Threw error,
            planned.2 ++ [LogInfo notice]
              ++ map (stageRequest model tag previousTag) planned.1
              ++ [finalRequest model tag previousTag texts githubNotes])).
Proof.
  intros fullPrompt planned. split; [|split].
  - intros Hfits Hreject. unfold runSummarization. fold fullPrompt.
    by rewrite (proj2 (Z.leb_le _ _) Hfits), generateResponseText_answer, Hreject.
  - intros before texts chunk after Hover Hplan Hbefore Hreject.
    unfold runSummarization. fold fullPrompt.
    rewrite (proj2 (Z.leb_gt _ _) Hover). fold planned.
    eexists. unfold logged, ebind at 1. rewrite Hplan.
    unfold inform, ebind at 1. simpl fst. simpl snd. cbv iota beta.
    unfold ebind at 1.
    rewrite (stageLoop_rejected client model tag previousTag 0 before texts chunk
               after [] error Hbefore Hreject).
    cbv iota beta. reflexivity.
  - intros texts Hover Hall Hreject.
    unfold runSummarization. fold fullPrompt.
    rewrite (proj2 (Z.leb_gt _ _) Hover). fold planned.
    eexists. unfold logged, ebind at 1.
    unfold inform, ebind at 1. simpl fst. simpl snd. cbv iota beta.
    unfold ebind at 1.
    rewrite (stageLoop_answered client model tag previousTag 0 planned.1 texts []
               Hall).
    cbv iota beta. rewrite generateResponseText_answer. simpl app at 1.
    rewrite Hreject. unfold finalRequest. reflexivity.
Qed.

(** A summarizer that rejects the only request of a run within budget. *)
Lemma runSummarization_rejection_witness :
  Js.len (buildPrompt "v1.1.0" "v1.0.0" [smallCommit] "") <= 400000
  ∧ runSummarization (rejectingClient "429 rate limit") "gpt" "v1.1.0" "v1.0.0"
      [smallCommit] "" 400000
    = (Threw "429 rate limit",
       [Submitted "gpt" (buildPrompt "v1.1.0" "v1.0.0" [smallCommit] "")
          finalInstructions]).
Proof.
  assert (Hfits : Js.len (buildPrompt "v1.1.0" "v1.0.0" [smallCommit] "") <= 400000)
    by (by vm_compute).
  split; [exact Hfits|].
  exact (proj1 (runSummarization_rejection (rejectingClient "429 rate limit") "gpt"
                  "v1.1.0" "v1.0.0" [smallCommit] "" 400000 "429 rate limit")
           Hfits eq_refl).
Defined.

(** ** Tags *)

Lemma cleaned_names (output : string) :
  Forall cleanName
    (filter (λ name, Js.truthy name = true) (map Js.trim (Js.split output LF))).
Proof.
  apply Forall_forall. intros name Hin.
  apply list_elem_of_filter in Hin as [Htruthy Hin].
  apply list_elem_of_fmap in Hin as (raw & -> & _).
  split; [by apply truthy_nonempty|apply trim_idem].
Qed.

Lemma listTags_names (git : Git) : Forall cleanName (listTags git).
Proof.
  unfold listTags. destruct (runGit _ _ _) as [output|]; [|done].
  destruct (Js.truthy output); [|done]. apply cleaned_names.
Qed.

Lemma listTags_failure (git : Git) (err : ExecError) :
  git tagsArgs None = inr err → listTags git = [].
Proof.
  intros Herr. unfold listTags, runGit. fold tagsArgs. simpl. by rewrite Herr.
Qed.

(** X12. Every tag [listTags] returns is a name that is not empty and
    has no white space at either end; and when git fails, [listTags]
    returns the empty list, as for a repository without tags. *)
Theorem listTags_clean (git : Git) :
  Forall cleanName (listTags git)
  ∧ (∀ err, git tagsArgs None = inr err → listTags git = []).
Proof. split; [apply listTags_names|apply listTags_failure]. Qed.

Lemma indexOf_lookup (tags : list string) (t : string) (i : nat) :
  indexOf tags t = Some i → tags !! i = Some t.
Proof.
  induction tags as [|x tags IH] in i |- *; simpl; [done|].
  destruct (bool_decide (x = t)) eqn:Hx.
  - apply bool_decide_eq_true_1 in Hx as ->. by intros [= <-].
  - destruct (indexOf tags t) as [j|]; [|done]. simpl. intros [= <-].
    by apply IH.
Qed.

(** X13. Without an override, whatever [resolvePreviousTag] returns was
    read from the tag list: the current tag is in the list, and the
    result is either the empty string, with the notice that there is no
    previous tag, or a tag of the list, with no notice. When no name is
    listed twice, the result is never the current tag itself. When git
    cannot list the tags, the error is the one of a repository without
    tags. *)
Theorem resolvePreviousTag_from_list (git : Git) (current : string) :
  (∀ previous log,
     resolvePreviousTag git current "" = (Ok previous, log) →
     current ∈ listTags git
     ∧ ((previous = "" ∧ log = [NO_PREVIOUS])
        ∨ (previous ∈ listTags git ∧ cleanName previous ∧ log = []))
     ∧ (NoDup (listTags git) → previous ≠ current))
  ∧ (∀ err, git tagsArgs None = inr err →
       resolvePreviousTag git current "" = (Threw NO_TAGS, [])).
Proof.
  split.
  - intros previous log. unfold resolvePreviousTag. simpl.
    pose proof (listTags_names git) as Hclean.
    destruct (listTags git) as [|t0 tags0] eqn:Htags; [done|].
    set (tags := t0 :: tags0) in *. simpl negb. cbv iota.
    destruct (indexOf tags current) as [i|] eqn:Hidx; [|done].
    pose proof (indexOf_lookup _ _ _ Hidx) as Hcur.
    assert (Hin : current ∈ tags) by (by eapply list_elem_of_lookup_2).
    assert (Hcurclean : current ≠ "").
    { by destruct (proj1 (Forall_forall _ _) Hclean current Hin). }
    destruct (tags !! S i) as [next|] eqn:Hnext.
    + intros [= <- <-]. split; [done|]. split.
      * right. assert (Hinn : next ∈ tags) by (by eapply list_elem_of_lookup_2).
        split; [done|]. split; [|done].
        by apply (proj1 (Forall_forall _ _) Hclean).
      * intros Hnodup ->.
        pose proof (NoDup_lookup _ _ _ _ Hnodup Hcur Hnext). lia.
    + intros [= <- <-]. split; [done|]. split; [by left|]. by intros _ Heq.
  - intros err Herr. unfold resolvePreviousTag. simpl.
    by rewrite (listTags_failure git err Herr).
Qed.

Lemma resolvePreviousTag_from_list_witness :
  deadGit tagsArgs None = inr sampleFailure
  ∧ resolvePreviousTag deadGit "v1.1.0" "" = (Threw NO_TAGS, []).
Proof.
  assert (H : deadGit tagsArgs None = inr sampleFailure) by reflexivity.
  split; [exact H|].
  exact (proj2 (resolvePreviousTag_from_list deadGit "v1.1.0") sampleFailure H).
Defined.

(** X14. With an override, [resolvePreviousTag] looks neither at the
    current tag nor at the tag list: it returns the override itself,
    without notice, when [git rev-parse --verify] prints something for
    it, and throws the error that names the override when git prints
    nothing or fails. *)
Theorem resolvePreviousTag_override (git : Git) (current override : string) :
  override ≠ "" →
  resolvePreviousTag git current override
  = (match git (verifyArgs override) None with
     | inl output =>
         if Js.truthy (Js.trimEnd output) then Ok override
         else Threw (overrideNotFound override)
     | inr _ => Threw (overrideNotFound override)
     end, [])
  ∧ ∀ other, resolvePreviousTag git other override
             = resolvePreviousTag git current override.
Proof.
  intros Hne.
  assert (Hform : ∀ cur, resolvePreviousTag git cur override
    = (match git (verifyArgs override) None with
       | inl output =>
           if Js.truthy (Js.trimEnd output) then Ok override
           else Threw (overrideNotFound override)
       | inr _ => Threw (overrideNotFound override)
       end, [])).
  { intros cur. unfold resolvePreviousTag.
    destruct override as [|c ov]; [done|]. cbn [Js.truthy]. cbv iota.
    unfold runGit. fold (verifyArgs (String c ov)). simpl.
    destruct (git (verifyArgs (String c ov)) None) as [output|err]; simpl; [|done].
    by destruct (Js.truthy (Js.trimEnd output)). }
  split; [apply Hform|]. intros other. by rewrite !Hform.
Qed.

Lemma resolvePreviousTag_override_witness :
  "v9.9.9" ≠ ""
  ∧ resolvePreviousTag sampleGit "v1.1.0" "v9.9.9"
    = (Threw (overrideNotFound "v9.9.9"), []).
Proof.
  assert (H : "v9.9.9" ≠ "") by discriminate. split; [exact H|].
  exact (proj1 (resolvePreviousTag_override sampleGit "v1.1.0" "v9.9.9" H)).
Defined.

(** ** The commit range, in general *)

Lemma aslice_suffix {A} (xs : list A) (k : Z) : Js.asliceFrom xs k `suffix_of` xs.
Proof.
  unfold Js.asliceFrom, Js.aslice.
  set (n := Z.of_nat (length xs)). set (from := Js.relIndex n k).
  assert (Hto : Js.relIndex n n = n).
  { unfold Js.relIndex. destruct (Z.ltb_spec n 0); lia. }
  assert (Hfrom : 0 <= from <= n).
  { subst from. unfold Js.relIndex. destruct (Z.ltb_spec k 0); lia. }
  rewrite Hto, take_ge by (rewrite length_drop; lia).
  apply suffix_drop.
Qed.

Lemma len_asliceFrom {A} (xs : list A) (k : Z) :
  0 <= k → Z.of_nat (length (Js.asliceFrom xs (Z.of_nat (length xs) - k))) <= k.
Proof.
  intros Hk. unfold Js.asliceFrom, Js.aslice, Js.relIndex.
  rewrite length_take, length_drop.
  destruct (Z.ltb_spec (Z.of_nat (length xs) - k) 0);
    destruct (Z.ltb_spec (Z.of_nat (length xs)) 0); lia.
Qed.

(** X15. Whatever the range, with a cap that is not negative a list
    returned by [getCommitShas] holds at most [maxCommits] shas, all of
    them names that are not empty and carry no white space, and it is a
    suffix of the list git printed, so the order of git is kept and only
    the oldest commits are left out. A failure of [git log] is thrown,
    with the arguments and the diagnostics of git, and is not taken for
    an empty range. *)
Theorem getCommitShas_bounds (git : Git) (previousTag currentTag : string)
  (maxCommits : Z) :
  (∀ shas log,
     0 <= maxCommits →
     getCommitShas git previousTag currentTag maxCommits = (Ok shas, log) →
     Z.of_nat (length shas) <= maxCommits
     ∧ Forall cleanName shas
     ∧ ∃ output,
         runGit git (logArgs previousTag currentTag) defaults = Ok output
         ∧ shas `suffix_of` commitsOf output)
  ∧ (∀ err,
       git (logArgs previousTag currentTag) None = inr err →
       getCommitShas git previousTag currentTag maxCommits
       = (Threw (gitError (logArgs previousTag currentTag) err), [])).
Proof.
  split.
  - intros shas log Hcap. unfold getCommitShas.
    fold (rangeOf previousTag currentTag). fold (logArgs previousTag currentTag).
    destruct (runGit git (logArgs previousTag currentTag) defaults) as [output|e]
      eqn:Hrun; [|done].
    simpl. destruct (Js.truthy output) eqn:Hout; simpl.
    + fold LF. fold (commitsOf output).
      destruct (Z.ltb_spec maxCommits (Z.of_nat (length (commitsOf output))))
        as [Hmore|Hless]; simpl; intros [= <- <-].
      * split; [by apply len_asliceFrom|]. split.
        -- eapply Forall_forall. intros sha Hin.
           eapply (proj1 (Forall_forall _ _) (cleaned_names output)).
           by eapply elem_of_suffix; [|apply aslice_suffix].
        -- exists output. split; [done|apply aslice_suffix].
      * split; [done|]. split; [apply cleaned_names|]. by exists output.
    + intros [= <- <-]. split; [simpl; lia|]. split; [done|].
      exists output. split; [done|apply suffix_nil].
  - intros err Herr. unfold getCommitShas.
    fold (rangeOf previousTag currentTag). fold (logArgs previousTag currentTag).
    unfold runGit. simpl. by rewrite Herr.
Qed.

Lemma getCommitShas_bounds_witness :
  0 <= 2
  ∧ getCommitShas sampleGit "v1.0.0" "v1.1.0" 2 = (Ok ["bbb"; "ccc"], [countNotice 3 2])
  ∧ Z.of_nat (length ["bbb"; "ccc"]) <= 2.
Proof.
  assert (Hcap : 0 <= 2) by lia.
  assert (Hrun : getCommitShas sampleGit "v1.0.0" "v1.1.0" 2
                 = (Ok ["bbb"; "ccc"], [countNotice 3 2])) by (by vm_compute).
  split; [exact Hcap|]. split; [exact Hrun|].
  exact (proj1 (proj1 (getCommitShas_bounds sampleGit "v1.0.0" "v1.1.0" 2)
                  _ _ Hcap Hrun)).
Defined.

(** ** The tag of a ref *)

Lemma prefix_split (p s : string) :
  String.prefix p s = true → ∃ r, s = p +:+ r.
Proof.
  induction p as [|a p IH] in s |- *; [by exists s|].
  destruct s as [|c s]; [done|]. simpl.
  destruct (ascii_dec a c) as [->|]; [|done].
  intros Hp. destruct (IH s Hp) as [r ->]. by exists r.
Qed.

Lemma prefix_append (p r : string) : String.prefix p (p +:+ r) = true.
Proof.
  induction p as [|a p IH]; [by destruct r|].
  change (String a p +:+ r) with (String a (p +:+ r)). simpl.
  by destruct (ascii_dec a a).
Qed.

Lemma substring_after (p r : string) :
  String.substring (String.length p) (String.length r) (p +:+ r) = r.
Proof. induction p as [|a p IH]; [apply substring_all|exact IH]. Qed.

Lemma sliceFrom_append (p r : string) : Js.sliceFrom (p +:+ r) (Js.len p) = r.
Proof.
  unfold Js.sliceFrom, Js.slice, Js.relIndex.
  pose proof (len_nonneg p). pose proof (len_nonneg r).
  rewrite len_append.
  destruct (Z.ltb_spec (Js.len p) 0); [lia|].
  destruct (Z.ltb_spec (Js.len p + Js.len r) 0); [lia|].
  replace (Z.to_nat (Z.min (Js.len p) (Js.len p + Js.len r)))
    with (String.length p) by (unfold Js.len in *; lia).
  replace (Z.to_nat (Z.max (Z.min (Js.len p + Js.len r) (Js.len p + Js.len r)
                            - Z.min (Js.len p) (Js.len p + Js.len r)) 0))
    with (String.length r) by (unfold Js.len in *; lia).
  apply substring_after.
Qed.

(** X16. [getTagFromRef] undoes the naming of a tag ref: it returns a
    tag exactly for the refs made of [refs/tags/] followed by that tag,
    the empty tag included, and nothing for any other ref. *)
Theorem getTagFromRef_inverse (ref tag : string) :
  getTagFromRef (Some ref) = Some tag ↔ ref = "refs/tags/" +:+ tag.
Proof.
  unfold getTagFromRef. split.
  - destruct (Js.truthy ref); simpl; [|done].
    destruct (Js.startsWith ref "refs/tags/") eqn:Hp; [|done].
    apply prefix_split in Hp as [r ->]. rewrite sliceFrom_append.
    by intros [= ->].
  - intros ->. change (Js.truthy ("refs/tags/" +:+ tag)) with true. simpl negb.
    cbv iota. unfold Js.startsWith. rewrite prefix_append.
    by rewrite sliceFrom_append.
Qed.

(** ** The files of a commit *)





(** ** The records of commits *)

Lemma emap_logs {A B} (f : A → Eff B) (xs : list A) (ys : list B) (log : list LogEntry) :
  emap f xs = (Ok ys, log) →
  ∃ logs, Forall3 (λ x y l, f x = (Ok y, l)) xs ys logs ∧ log = concat logs.
Proof.
  induction xs as [|x xs IH] in ys, log |- *; simpl.
  - intros [= <- <-]. exists []. split; [constructor|done].
  - unfold ebind at 1. destruct (f x) as [[y|e] l1] eqn:Hfx; [|done].
    unfold ebind at 1. destruct (emap f xs) as [[ys'|e] l2] eqn:Hrest; [|done].
    simpl. intros [= <- <-]. destruct (IH _ _ eq_refl) as (logs & Hall & ->).
    exists (l1 :: logs). split; [by constructor|]. simpl. by rewrite app_nil_r.
Qed.

Lemma readDiffLines_log (git : Git) (sha : string) (maxDiffLines : Z)
  (sourcePaths content : list string) (log : list LogEntry) :
  readDiffLines git sha maxDiffLines sourcePaths = (Ok content, log) →
  (length log ≤ 1)%nat ∧ Forall isWarning log.
Proof.
  assert (Hnone : (length (@nil LogEntry) ≤ 1)%nat ∧ Forall isWarning [])
    by (split; [simpl; lia|constructor]).
  assert (Hwarn : ∀ e, (length [diffWarning sha e] ≤ 1)%nat
                       ∧ Forall isWarning [diffWarning sha e]).
  { intros e. split; [simpl; lia|]. apply Forall_singleton. by eexists. }
  rewrite readDiffLines_cases. destruct sourcePaths as [|p ps].
  { by intros [= _ <-]. }
  destruct (git _ _) as [diff|err]; [|intros [= _ <-]; apply Hwarn].
  destruct (collected _ _ _); [|by intros [= _ <-]].
  destruct (fallbackFileChanges _ _ _); intros [= _ <-]; [done|apply Hwarn].
Qed.

(** X18. The records [buildCommitData] returns are as many as the shas
    given, each with a message that is not empty and has no white space
    at either end, a commit without message getting the placeholder;
    what is logged on the way is at most one warning for each commit,
    and nothing but warnings. *)
Theorem buildCommitData_records (git : Git) (shas : list string) (maxDiffLines : Z)
  (extensions : gset string) (records : list CommitData) (log : list LogEntry) :
  buildCommitData git shas maxDiffLines extensions = (Ok records, log) →
  length records = length shas
  ∧ Forall (λ record, cleanName (message record)) records
  ∧ (length log ≤ length shas)%nat
  ∧ Forall isWarning log.
Proof.
  intros Hbuild. apply emap_logs in Hbuild as (logs & Hall & ->).
  induction Hall as [|commit record l shas records logs Hone _ IH]; [done|].
  destruct IH as (Hlen & Hmsg & Hlog & Hwarn).
  apply buildCommit_inv in Hone as (logOutput & fileStats & content & _ & Hread & ->).
  apply readDiffLines_log in Hread as [Hl1 Hw1].
  simpl. rewrite length_app. split; [by rewrite Hlen|]. split; [|split].
  - constructor; [|done]. simpl.
    destruct (Js.truthy (Js.trim logOutput)) eqn:Htruthy.
    + split; [by apply truthy_nonempty|apply trim_idem].
    + by split.
  - lia.
  - by apply Forall_app.
Qed.

Lemma buildCommitData_records_witness :
  buildCommitData brokenDiffGit ["aaa1234567"] 1 DEFAULT_SOURCE_EXTENSIONS
  = (Ok [ {| sha := "aaa1234567"; message := "feat: x";
             diffLines := ["src/a.ts: source change (diff omitted)"] |} ],
     [diffWarning "aaa1234567" (gitError (diffArgs "aaa1234567") sampleFailure)])
  ∧ cleanName "feat: x".
Proof.
  assert (H : buildCommitData brokenDiffGit ["aaa1234567"] 1 DEFAULT_SOURCE_EXTENSIONS
    = (Ok [ {| sha := "aaa1234567"; message := "feat: x";
               diffLines := ["src/a.ts: source change (diff omitted)"] |} ],
       [diffWarning "aaa1234567" (gitError (diffArgs "aaa1234567") sampleFailure)]))
    by (by vm_compute).
  split; [exact H|].
  pose proof (proj1 (proj2 (buildCommitData_records _ _ _ _ _ _ H))) as Hall.
  exact (Forall_inv Hall).
Defined.

Lemma emap_throws {A B} (f : A → Eff B) (before : list A) (x : A) (after : list A)
  (error : string) (l : list LogEntry) :
  Forall (λ a, ∃ b la, f a = (Ok b, la)) before →
  f x = (Threw error, l) →
  ∃ log, emap f (before ++ x :: after) = (Threw error, log).
Proof.
  intros Hbefore Hx. induction Hbefore as [|a before (b & la & Ha) _ IH]; simpl.
  - rewrite Hx. simpl. by eexists.
  - rewrite Ha. unfold ebind at 1. destruct IH as [log ->]. simpl. by eexists.
Qed.

(** X19. Unlike the diff, the message and the file statistics of a
    commit must be read: when git fails at either for one commit, the
    commits before it having been read, [buildCommitData] throws the
    error of git and returns no record at all. *)
Theorem buildCommitData_aborts (git : Git) (before : list string) (sha : string)
  (after : list string) (maxDiffLines : Z) (extensions : gset string) (error : string) :
  Forall (λ s, ∃ record l, buildCommit git maxDiffLines extensions s = (Ok record, l))
    before →
  runGit git (messageArgs sha) defaults = Threw error
  ∨ (∃ logOutput, runGit git (messageArgs sha) defaults = Ok logOutput
                  ∧ getFileStats git sha extensions = Threw error) →
  ∃ log,
    buildCommitData git (before ++ sha :: after) maxDiffLines extensions
    = (Threw error, log).
Proof.
  intros Hbefore Hfail. unfold buildCommitData.
  apply emap_throws with (l := []); [done|].
  unfold buildCommit. fold (messageArgs sha).
  destruct Hfail as [Hmsg|(logOutput & Hmsg & Hstats)].
  - by rewrite Hmsg.
  - by rewrite Hmsg, Hstats.
Qed.

Lemma buildCommitData_aborts_witness :
  runGit deadGit (messageArgs "bbb") defaults
  = Threw (gitError (messageArgs "bbb") sampleFailure)
  ∧ ∃ log,
      buildCommitData deadGit ([] ++ "bbb" :: ["ccc"]) 120 DEFAULT_SOURCE_EXTENSIONS
      = (Threw (gitError (messageArgs "bbb") sampleFailure), log).
Proof.
  assert (H : runGit deadGit (messageArgs "bbb") defaults
              = Threw (gitError (messageArgs "bbb") sampleFailure)) by reflexivity.
  split; [exact H|].
  exact (buildCommitData_aborts deadGit [] "bbb" ["ccc"] 120 DEFAULT_SOURCE_EXTENSIONS
           _ (Forall_nil_2 _) (or_introl H)).
Defined.

(** ** The cap and the labels of the lines of a diff *)

Lemma belowCap_bound (maxLines : Z) (lines : list string) :
  belowCap maxLines lines → Z.of_nat (length lines) <= Z.max maxLines 1.
Proof. intros [Hlt| ->]; simpl; lia. Qed.

Lemma belowCap_push (maxLines : Z) (lines : list string) (entry : string) :
  belowCap maxLines lines →
  Z.of_nat (length (lines ++ [entry])) <= Z.max maxLines 1
  ∧ ((maxLines <=? Z.of_nat (length (lines ++ [entry]))) = false →
     belowCap maxLines (lines ++ [entry])).
Proof.
  intros Hbelow. split.
  - rewrite length_app. destruct Hbelow as [Hlt| ->]; simpl; lia.
  - intros Hgo%Z.leb_gt. by left.
Qed.

Lemma extractStep_cap (maxLines : Z) (allowedPaths : option (gset string))
  (st : Extract) (rawLine : string) :
  belowCap maxLines (results st) →
  match extractStep maxLines allowedPaths st rawLine with
  | Continue st' => belowCap maxLines (results st')
  | Break st' => Z.of_nat (length (results st')) <= Z.max maxLines 1
  end.
Proof.
  intros Hbelow. unfold extractStep. cbv zeta.
  set (line := Js.stripFinalCR rawLine).
  destruct (Js.startsWith line "diff --git "); [done|].
  destruct (negb (includeFile st)); [done|].
  destruct (_ || _ || _ || _); [done|].
  destruct (Js.startsWith line "Binary files ").
  { destruct (belowCap_push maxLines (results st) (entryFor (currentFile st) line)
                Hbelow) as [Hle Hgo].
    destruct (_ <=? _); [done|by apply Hgo]. }
  destruct (Js.startsWith line "+" || Js.startsWith line "-").
  - destruct (Js.startsWith line "+++" || Js.startsWith line "---"); [done|].
    destruct (belowCap_push maxLines (results st)
                (entryFor (currentFile st) (trimmedLine line)) Hbelow) as [Hle Hgo].
    destruct (_ <=? _); [done|by apply Hgo].
  - destruct (Z.leb_spec maxLines (Z.of_nat (length (results st)))); simpl.
    + by apply belowCap_bound.
    + done.
Qed.

Lemma extractLoop_cap (maxLines : Z) (allowedPaths : option (gset string))
  (lines : list string) (st : Extract) :
  belowCap maxLines (results st) →
  Z.of_nat (length (results (extractLoop maxLines allowedPaths lines st)))
  <= Z.max maxLines 1.
Proof.
  induction lines as [|rawLine lines IH] in st |- *; intros Hbelow; simpl.
  - by apply belowCap_bound.
  - pose proof (extractStep_cap maxLines allowedPaths st rawLine Hbelow) as Hstep.
    destruct (extractStep _ _ _ _) as [st'|st']; [by apply IH|done].
Qed.

Lemma fallbackLoop_cap (maxLines : Z) (lines results : list string) :
  belowCap maxLines results →
  Z.of_nat (length (fallbackLoop maxLines lines results)) <= Z.max maxLines 1.
Proof.
  induction lines as [|line lines IH] in results |- *; intros Hbelow; simpl.
  - by apply belowCap_bound.
  - destruct (negb (Js.truthy (Js.trim line))); [by apply IH|].
    destruct (Js.split line (String "009" "")) as [|status pathParts]; [by apply IH|].
    destruct (negb (Js.truthy _)); [by apply IH|].
    destruct (belowCap_push maxLines results
                (Js.join (String "009" "") pathParts +:+ ": "
                   +:+ formatFileStatus status) Hbelow) as [Hle Hgo].
    destruct (_ <=? _); [done|by apply IH, Hgo].
Qed.

(** X20. [extractDiffLines] never returns more than [maxLines] lines,
    whether they come from the diff or from the name-status listing it
    falls back to; the one exception is a cap below one, with which it
    can still return one line, the cap being looked at only after a line
    has been stored. *)
Theorem extractDiffLines_cap (git : Git) (diff : string) (maxLines : Z) (sha : string)
  (allowedPaths : option (gset string)) (lines : list string) :
  extractDiffLines git diff maxLines sha allowedPaths = Ok lines →
  Z.of_nat (length lines) <= Z.max maxLines 1.
Proof.
  unfold extractDiffLines.
  set (st := extractLoop _ _ _ _).
  assert (Hloop : Z.of_nat (length (results st)) <= Z.max maxLines 1).
  { apply extractLoop_cap. by right. }
  destruct (Js.nonEmpty (results st)); simpl; [by intros [= <-]|].
  unfold fallbackFileChanges, obind.
  destruct (runGit _ _ _) as [output|]; [|done].
  destruct (negb (Js.truthy output)); intros [= <-]; [simpl; lia|].
  apply fallbackLoop_cap. by right.
Qed.

Lemma extractDiffLines_cap_witness :
  extractDiffLines sampleGit sampleDiff 0 "aaa" None = Ok ["src/a.ts: modified"]
  ∧ Z.of_nat (length ["src/a.ts: modified"]) <= Z.max 0 1.
Proof.
  assert (H : extractDiffLines sampleGit sampleDiff 0 "aaa" None
              = Ok ["src/a.ts: modified"]) by (by vm_compute).
  split; [exact H|].
  exact (extractDiffLines_cap sampleGit sampleDiff 0 "aaa" None _ H).
Defined.

Lemma entryFor_labelled (paths : gset string) (file text : string) :
  "" ∉ paths → file ∈ paths → labelled paths (entryFor file text).
Proof.
  intros Hempty Hin. exists file, text. split; [done|].
  unfold entryFor. destruct file; [done|done].
Qed.

Lemma extractStep_labelled (paths : gset string) (maxLines : Z) (st : Extract)
  (rawLine : string) :
  "" ∉ paths → labelInv paths st →
  match extractStep maxLines (Some paths) st rawLine with
  | Continue st' | Break st' => labelInv paths st'
  end.
Proof.
  intros Hempty [Hfile Hres]. unfold extractStep. cbv zeta.
  set (line := Js.stripFinalCR rawLine).
  destruct (Js.startsWith line "diff --git ").
  { split; simpl; [|done]. by intros ?%bool_decide_eq_true_1. }
  destruct (includeFile st) eqn:Hinc; simpl; [|by split; [rewrite Hinc|]].
  destruct (_ || _ || _ || _); [by split; [rewrite Hinc|]|].
  assert (Hpush : ∀ text, labelInv paths
            {| results := results st ++ [entryFor (currentFile st) text];
               currentFile := currentFile st; includeFile := true |}).
  { intros text. split; simpl; [by intros _; apply Hfile|].
    apply Forall_app. split; [done|]. apply Forall_singleton.
    apply entryFor_labelled; [done|by apply Hfile]. }
  destruct (Js.startsWith line "Binary files ").
  { destruct (_ <=? _); apply Hpush. }
  destruct (Js.startsWith line "+" || Js.startsWith line "-").
  - destruct (Js.startsWith line "+++" || Js.startsWith line "---");
      [by split; [rewrite Hinc|]|].
    destruct (_ <=? _); apply Hpush.
  - destruct (_ <=? _); by split.
Qed.

Lemma extractLoop_labelled (paths : gset string) (maxLines : Z) (lines : list string)
  (st : Extract) :
  "" ∉ paths → labelInv paths st →
  labelInv paths (extractLoop maxLines (Some paths) lines st).
Proof.
  intros Hempty. induction lines as [|rawLine lines IH] in st |- *; intros Hinv;
    simpl; [done|].
  pose proof (extractStep_labelled paths maxLines st rawLine Hempty Hinv) as Hstep.
  destruct (extractStep _ _ _ _) as [st'|st']; [by apply IH|done].
Qed.

(** X21. From a diff that begins with the header of a file, as the
    output of [git show] does, [extractDiffLines] collects only lines of
    the files it is allowed to read: every line collected begins with
    one of the allowed paths, a colon and a space. The lines of the
    other files are never surfaced. *)
Theorem collected_labelled (paths : gset string) (diff header : string)
  (rest : list string) (maxLines : Z) :
  "" ∉ paths →
  Js.split diff LF = header :: rest →
  Js.startsWith (Js.stripFinalCR header) "diff --git " = true →
  Forall (labelled paths) (collected diff maxLines (Some paths)).
Proof.
  intros Hempty Hsplit Hheader. unfold collected. rewrite Hsplit. simpl.
  unfold extractStep at 1. cbv zeta. rewrite Hheader.
  apply extractLoop_labelled; [done|].
  split; simpl; [|done]. by intros ?%bool_decide_eq_true_1.
Qed.

Lemma collected_labelled_witness :
  collected sampleDiff 120 (Some {["src/a.ts"]}) = ["src/a.ts: -old"; "src/a.ts: +new"]
  ∧ Forall (labelled {["src/a.ts"]}) (collected sampleDiff 120 (Some {["src/a.ts"]})).
Proof.
  split; [by vm_compute|].
  refine (collected_labelled {["src/a.ts"]} sampleDiff _ _ 120 _ _ _).
  - intros Hin%elem_of_singleton. discriminate.
  - by vm_compute.
  - by vm_compute.
Defined.

(** ** Source extensions *)

Lemma lowerChar_idem (c : ascii) : Js.lowerChar (Js.lowerChar c) = Js.lowerChar c.
Proof. by destruct c as [[] [] [] [] [] [] [] []]. Qed.

Lemma toLowerCase_idem (s : string) :
  Js.toLowerCase (Js.toLowerCase s) = Js.toLowerCase s.
Proof.
  induction s as [|c s IH]; [done|]. unfold Js.toLowerCase in *. simpl.
  by rewrite lowerChar_idem, IH.
Qed.

Lemma dotted_form (value : string) :
  Js.startsWith (dotted value) "." = true
  ∧ Js.toLowerCase (dotted value) = dotted value.
Proof.
  unfold dotted. destruct (Js.startsWith value ".") eqn:Hdot.
  - split; [|apply toLowerCase_idem].
    destruct value as [|c value]; [done|]. rewrite startsWith_cons in Hdot.
    destruct (ascii_dec "." c) as [<-|]; [|done]. by destruct value.
  - split; [by destruct (Js.toLowerCase value)|].
    change (Js.toLowerCase ("." +:+ Js.toLowerCase value))
      with ("." +:+ Js.toLowerCase (Js.toLowerCase value)).
    by rewrite toLowerCase_idem.
Qed.

(** X22. Whatever the input, every extension of the set
    [parseSourceExtensions] returns begins with a dot and is in lower
    case, which is the form [isSourcePath] looks up; an input that is
    empty or blank gives the built-in set. *)
Theorem parseSourceExtensions_form (input : string) :
  (∀ extension, extension ∈ parseSourceExtensions input →
     Js.startsWith extension "." = true ∧ Js.toLowerCase extension = extension)
  ∧ (Js.trim input = "" → parseSourceExtensions input = DEFAULT_SOURCE_EXTENSIONS).
Proof.
  split.
  - intros extension. unfold parseSourceExtensions.
    destruct (negb (Js.truthy (Js.trim input))).
    + unfold DEFAULT_SOURCE_EXTENSIONS. intros Hin%elem_of_list_to_set.
      revert extension Hin. apply Forall_forall. repeat constructor.
    + intros Hin%elem_of_list_to_set.
      apply list_elem_of_fmap in Hin as (value & -> & _). apply dotted_form.
  - intros Hblank. unfold parseSourceExtensions. by rewrite Hblank.
Qed.

Lemma lastIndexOf_lower_bound (s : string) (c : ascii) : -1 <= Js.lastIndexOf s c.
Proof.
  induction s as [|d s IH]; simpl; [lia|].
  destruct (0 <=? Js.lastIndexOf s c); [lia|]. destruct (Ascii.eqb d c); lia.
Qed.

Lemma lastIndexOf_append (a b : string) (c : ascii) :
  without c b → Js.lastIndexOf (a +:+ String c b) c = Js.len a.
Proof.
  unfold without. intros Hb. induction a as [|d a IH].
  - change ("" +:+ String c b) with (String c b). simpl. rewrite Hb. simpl.
    by rewrite Ascii.eqb_refl.
  - change (String d a +:+ String c b) with (String d (a +:+ String c b)).
    simpl. rewrite IH. pose proof (len_nonneg a).
    rewrite (proj2 (Z.leb_le _ _)) by lia. unfold Js.len. simpl String.length. lia.
Qed.

Lemma lastIndexOf_found (s : string) (c : ascii) :
  Js.lastIndexOf s c ≠ -1 →
  ∃ a b, s = a +:+ String c b ∧ without c b.
Proof.
  induction s as [|d s IH]; simpl; [done|].
  destruct (Z.leb_spec 0 (Js.lastIndexOf s c)) as [Hin|Hout].
  - intros _. destruct IH as (a & b & -> & Hb); [lia|].
    by exists (String d a), b.
  - destruct (Ascii.eqb_spec d c) as [->|]; [|done]. intros _.
    exists "", s. split; [done|]. pose proof (lastIndexOf_lower_bound s c).
    unfold without. lia.
Qed.

(** X23. For a path that is not written as a rename, [isSourcePath]
    reads the extension as what follows the last dot of the path in
    lower case, the dot included: the path is a source path exactly when
    that extension is in the set. A path without a dot is never a source
    path. *)
Theorem isSourcePath_extension (path : string) (extensions : gset string) :
  Js.includes path "=>" = false →
  isSourcePath path extensions = true
  ↔ ∃ base extension,
      Js.toLowerCase path = base +:+ "." +:+ extension
      ∧ without "." extension
      ∧ "." +:+ extension ∈ extensions.
Proof.
  intros Hplain. unfold isSourcePath, normalizePath. rewrite Hplain. simpl negb.
  cbv iota zeta. split.
  - destruct (Z.eqb_spec (Js.lastIndexOf (Js.toLowerCase path) ".") (-1))
      as [|Hfound]; [done|].
    intros Hin%bool_decide_eq_true_1.
    destruct (lastIndexOf_found _ _ Hfound) as (base & extension & Heq & Hext).
    exists base, extension. split; [done|]. split; [done|].
    rewrite Heq in Hin. rewrite lastIndexOf_append in Hin by done.
    by rewrite sliceFrom_append in Hin.
  - intros (base & extension & -> & Hext & Hin).
    change (base +:+ "." +:+ extension) with (base +:+ String "." extension).
    rewrite lastIndexOf_append by done. pose proof (len_nonneg base).
    destruct (Z.eqb_spec (Js.len base) (-1)); [lia|].
    rewrite sliceFrom_append. by apply bool_decide_eq_true_2.
Qed.

Lemma isSourcePath_extension_witness :
  Js.includes "src/App.TSX" "=>" = false
  ∧ isSourcePath "src/App.TSX" DEFAULT_SOURCE_EXTENSIONS = true.
Proof.
  assert (H : Js.includes "src/App.TSX" "=>" = false) by reflexivity.
  split; [exact H|].
  apply (proj2 (isSourcePath_extension "src/App.TSX" DEFAULT_SOURCE_EXTENSIONS H)).
  exists "src/app", "tsx". split; [reflexivity|]. split; [reflexivity|].
  by vm_compute.
Defined.

(** ** The lines of the name-status listing *)

Lemma append_empty_r (s : string) : s +:+ "" = s.
Proof.
  induction s as [|c s IH]; [done|].
  change (String c s +:+ "") with (String c (s +:+ "")). by rewrite IH.
Qed.

Lemma rev_app_append (a b s : string) :
  String.rev_app a b +:+ s = String.rev_app a (b +:+ s).
Proof. induction a as [|c a IH] in b |- *; [done|]. simpl. by rewrite IH. Qed.

Lemma rev_cons_append (c : ascii) (cur s : string) :
  String.rev (String c cur) +:+ s = String.rev cur +:+ String c s.
Proof. unfold String.rev. simpl. by rewrite !rev_app_append. Qed.

Lemma without_cons (c d : ascii) (s : string) :
  without c (String d s) → d ≠ c ∧ without c s.
Proof.
  unfold without. simpl. pose proof (lastIndexOf_lower_bound s c).
  destruct (Z.leb_spec 0 (Js.lastIndexOf s c)); [lia|].
  destruct (Ascii.eqb_spec d c); [lia|]. intros _. split; [done|lia].
Qed.

Lemma splitGo_char (c d : ascii) (cur s : string) :
  Js.splitGo (String c "") O cur (String d s)
  = if ascii_dec c d then String.rev cur :: Js.splitGo (String c "") O "" s
    else Js.splitGo (String c "") O (String d cur) s.
Proof. simpl. destruct (ascii_dec c d); [by destruct s|done]. Qed.

(** Up to the first separator. *)
Lemma splitGo_first (c : ascii) (cur a b : string) :
  without c a →
  Js.splitGo (String c "") O cur (a +:+ String c b)
  = (String.rev cur +:+ a) :: Js.splitGo (String c "") O "" b.
Proof.
  induction a as [|d a IH] in cur |- *; intros Ha.
  - change ("" +:+ String c b) with (String c b). rewrite splitGo_char.
    destruct (ascii_dec c c); [|done]. by rewrite append_empty_r.
  - apply without_cons in Ha as [Hne Ha].
    change (String d a +:+ String c b) with (String d (a +:+ String c b)).
    rewrite splitGo_char. destruct (ascii_dec c d) as [->|]; [done|].
    by rewrite IH, rev_cons_append.
Qed.

Lemma splitGo_nonempty (sep : string) (skip : nat) (cur s : string) :
  Js.splitGo sep skip cur s ≠ [].
Proof.
  induction s as [|d s IH] in skip, cur |- *; simpl; [done|].
  destruct skip; [|apply IH].
  match goal with |- (if ?b then _ else _) ≠ [] => destruct b end;
    [done|apply IH].
Qed.

(** Joining the pieces gives the string back. *)
Lemma join_split_char (c : ascii) (cur s : string) :
  Js.join (String c "") (Js.splitGo (String c "") O cur s) = String.rev cur +:+ s.
Proof.
  induction s as [|d s IH] in cur |- *.
  - simpl. by rewrite append_empty_r.
  - rewrite splitGo_char. destruct (ascii_dec c d) as [->|].
    + pose proof (splitGo_nonempty (String d "") O "" s) as Hne.
      destruct (Js.splitGo (String d "") O "" s) as [|p ps] eqn:Hs; [done|].
      change (Js.join (String d "") (String.rev cur :: p :: ps))
        with (String.rev cur +:+ String d "" +:+ Js.join (String d "") (p :: ps)).
      rewrite <- Hs, IH. done.
    + by rewrite IH, rev_cons_append.
Qed.

(** X24. A line of the name-status listing made of a status, a
    tabulation and a path gives the entry [path: word], where the path
    is all that follows the first tabulation, a later tabulation
    included (the two paths of a rename stay together), and the word is
    the status spelled out. *)
Theorem fallback_entry (maxLines : Z) (status filePath : string) (results : list string) :
  without "009" status → filePath ≠ "" →
  Js.trim (status +:+ TAB +:+ filePath) ≠ "" →
  fallbackLoop maxLines [status +:+ TAB +:+ filePath] results
  = results ++ [filePath +:+ ": " +:+ formatFileStatus status].
Proof.
  intros Hstatus Hpath Hline. simpl.
  apply truthy_nonempty in Hline. rewrite Hline. simpl negb. cbv iota.
  unfold Js.split. change (status +:+ TAB +:+ filePath)
    with (status +:+ String "009" filePath).
  rewrite (splitGo_first "009" "" status filePath) by done.
  change (String.rev "" +:+ status) with status.
  rewrite (join_split_char "009" "" filePath).
  change (String.rev "" +:+ filePath) with filePath.
  apply truthy_nonempty in Hpath. rewrite Hpath. simpl negb. cbv iota.
  by destruct (_ <=? _).
Qed.

Lemma fallback_entry_witness :
  without "009" "R100"
  ∧ fallbackLoop 120 ["R100" +:+ TAB +:+ "old.ts" +:+ TAB +:+ "new.ts"] []
    = [] ++ [("old.ts" +:+ TAB +:+ "new.ts") +:+ ": " +:+ formatFileStatus "R100"].
Proof.
  assert (H : without "009" "R100") by reflexivity. split; [exact H|].
  refine (fallback_entry 120 "R100" ("old.ts" +:+ TAB +:+ "new.ts") [] H _ _);
    discriminate.
Defined.

(** ** The notes of GitHub *)

Lemma len_buildPrompt_notes (currentTag previousTag : string) (commits : list CommitData)
  (githubNotes : string) :
  Js.len githubNotes <= Js.len (buildPrompt currentTag previousTag commits githubNotes).
Proof.
  unfold buildPrompt. destruct githubNotes as [|c notes].
  - apply len_nonneg.
  - cbn [Js.truthy]. cbv iota. rewrite !len_append.
    pose proof (len_nonneg NOTES_HEADING).
    match goal with |- _ <= Js.len ?a + Js.len ?b + _ =>
      pose proof (len_nonneg a); pose proof (len_nonneg b) end.
    lia.
Qed.

Lemma len_buildFinalPrompt_notes (currentTag previousTag : string)
  (summaries : list string) (githubNotes : string) :
  Js.len githubNotes
  <= Js.len (buildFinalPrompt currentTag previousTag summaries githubNotes).
Proof.
  unfold buildFinalPrompt. destruct githubNotes as [|c notes].
  - apply len_nonneg.
  - cbn [Js.truthy]. cbv iota. rewrite !len_append.
    pose proof (len_nonneg NOTES_HEADING).
    match goal with |- _ <= Js.len ?a + Js.len ?b + _ =>
      pose proof (len_nonneg a); pose proof (len_nonneg b) end.
    lia.
Qed.

(** X25. The notes of GitHub are never shortened: every prompt that
    carries them holds them whole. So notes longer than the stage budget
    send the run into staged mode, and the final request of that run,
    whatever the batch stages answered, is itself over the stage
    budget. *)
Theorem notes_never_trimmed (currentTag previousTag : string) (commits : list CommitData)
  (githubNotes : string) (maxStageChars : Z) :
  maxStageChars < Js.len githubNotes →
  maxStageChars < Js.len (buildPrompt currentTag previousTag commits githubNotes)
  ∧ ∀ summaries,
      maxStageChars
      < Js.len (buildFinalPrompt currentTag previousTag summaries githubNotes).
Proof.
  intros Hnotes. split.
  - pose proof (len_buildPrompt_notes currentTag previousTag commits githubNotes). lia.
  - intros summaries.
    pose proof (len_buildFinalPrompt_notes currentTag previousTag summaries githubNotes).
    lia.
Qed.

Lemma notes_never_trimmed_witness :
  10 < Js.len "notes of GitHub"
  ∧ 10 < Js.len (buildFinalPrompt "v1.1.0" "v1.0.0" ["summary"] "notes of GitHub").
Proof.
  assert (H : 10 < Js.len "notes of GitHub") by (by vm_compute).
  split; [exact H|].
  exact (proj2 (notes_never_trimmed "v1.1.0" "v1.0.0" [] "notes of GitHub" 10 H)
           ["summary"]).
Defined.
